(** * passwordforge: the rule language and the rule engine

    A shallow embedding of [src/passwordforge.py]: the delimiter splitter
    [split_escaped_delimiters], the rule parser [parse_single_rule] and the
    rule engine [apply_rules], followed by the properties of the
    specification that concern them.

    Python strings are sequences of Unicode code points.  The parts of the
    Python runtime whose tables are too large to write down (the case
    mappings of [str.lower] and [str.upper], the decimal digits accepted by
    [int], the case folding of the [re] module) are the fields of the class
    [PyRuntime], together with what they do on ASCII text; every general
    theorem holds for every such runtime. *)

From Stdlib Require Import String Ascii ZArith NArith Lia Bool List.
From Stdlib Require Import DecimalPos.
Import ListNotations.

(** ** Python strings *)

Definition codepoint := N.
Definition pystr := list codepoint.

(** A string literal of the source, as its code points. *)
Definition u (s : string) : pystr := map N_of_ascii (list_ascii_of_string s).

Definition backslash : codepoint := 92%N.
Definition pipe : codepoint := 124%N.
Definition underscore : codepoint := 95%N.

Fixpoint str_eqb (a b : pystr) : bool :=
  match a, b with
  | [], [] => true
  | x :: a', y :: b' => N.eqb x y && str_eqb a' b'
  | _, _ => false
  end.

(** [s.startswith(p)], with the rest of [s] after the prefix. *)
Fixpoint startswith (eqc : codepoint -> codepoint -> bool) (p s : pystr) : bool :=
  match p, s with
  | [], _ => true
  | x :: p', y :: s' => eqc x y && startswith eqc p' s'
  | _ :: _, [] => false
  end.

(** [p in s] for strings. *)
Fixpoint occurs (p s : pystr) : bool :=
  startswith N.eqb p s ||
  match s with
  | [] => false
  | _ :: s' => occurs p s'
  end.

(** The characters for which [str.isspace] holds: they are what [str.split()]
    separates on and what [str.strip()] removes. *)
Definition isspace (c : codepoint) : bool :=
  ((9 <=? c) && (c <=? 13) || (28 <=? c) && (c <=? 32) ||
   (c =? 133) || (c =? 160) || (c =? 5760) ||
   (8192 <=? c) && (c <=? 8202) || (c =? 8232) || (c =? 8233) ||
   (c =? 8239) || (c =? 8287) || (c =? 12288))%N.

Fixpoint lstrip (s : pystr) : pystr :=
  match s with
  | [] => []
  | c :: s' => if isspace c then lstrip s' else s
  end.

Definition rstrip (s : pystr) : pystr := rev (lstrip (rev s)).

(** [s.strip()] *)
Definition strip (s : pystr) : pystr := rstrip (lstrip s).

(** Puts a character in front of the first string of a list of strings. *)
Definition push (c : codepoint) (l : list pystr) : list pystr :=
  match l with
  | [] => [[c]]
  | p :: ps => (c :: p) :: ps
  end.

Definition add_word (w : pystr) (ws : list pystr) : list pystr :=
  match w with
  | [] => ws
  | _ :: _ => w :: ws
  end.

(** The word that starts at the head of [s], and the words after it. *)
Fixpoint split_words (s : pystr) : pystr * list pystr :=
  match s with
  | [] => ([], [])
  | c :: s' =>
      let (w, ws) := split_words s' in
      if isspace c then ([], add_word w ws) else (c :: w, ws)
  end.

(** [s.split()]: the maximal runs of characters that are not whitespace. *)
Definition py_split (s : pystr) : list pystr :=
  let (w, ws) := split_words s in add_word w ws.

(** ** Substitution of a literal pattern

    [sub_from eqc pat expand skip s] scans [s] from the left for the
    occurrences of the literal [pat] that do not overlap, comparing
    characters with [eqc], and replaces each by [expand] of the matched
    text. [skip] counts the characters of the current match still to pass.
    This is [str.replace] (exact comparison, constant expansion) and
    [Pattern.sub] for a pattern that is an escaped literal. An empty pattern
    matches before every character and at the end. *)
Fixpoint sub_from (eqc : codepoint -> codepoint -> bool) (pat : pystr)
    (expand : pystr -> pystr) (skip : nat) (s : pystr) : pystr :=
  match s with
  | [] =>
      match skip, pat with
      | O, [] => expand []
      | _, _ => []
      end
  | c :: s' =>
      match skip with
      | S k => sub_from eqc pat expand k s'
      | O =>
          if startswith eqc pat s then
            expand (firstn (length pat) s) ++
            match pat with
            | [] => c :: sub_from eqc pat expand 0 s'
            | _ :: pat' => sub_from eqc pat expand (length pat') s'
            end
          else c :: sub_from eqc pat expand 0 s'
      end
  end.

(** [s.replace(old, new)] *)
Definition str_replace (old new s : pystr) : pystr :=
  sub_from N.eqb old (fun _ => new) 0 s.

(** ** The Python runtime

    [int_ascii], [ascii_lower] and [ascii_upper] are what [int], [str.lower]
    and [str.upper] do on ASCII text. *)

Definition is_ascii (c : codepoint) : bool := (c <? 128)%N.
Definition is_digit (c : codepoint) : bool := ((48 <=? c) && (c <=? 57))%N.
Definition is_octdigit (c : codepoint) : bool := ((48 <=? c) && (c <=? 55))%N.
Definition is_ascii_letter (c : codepoint) : bool :=
  ((65 <=? c) && (c <=? 90) || (97 <=? c) && (c <=? 122))%N.

Definition ascii_lower (c : codepoint) : codepoint :=
  if ((65 <=? c) && (c <=? 90))%N then (c + 32)%N else c.

Definition ascii_upper (c : codepoint) : codepoint :=
  if ((97 <=? c) && (c <=? 122))%N then (c - 32)%N else c.

Definition digit_value (c : codepoint) : Z := Z.of_N c - 48.

(** The digits of a decimal literal: single underscores are allowed between
    digits only. [after_digit] tells whether the previous character was a
    digit. *)
Fixpoint int_digits (acc : Z) (after_digit : bool) (s : pystr) : option Z :=
  match s with
  | [] => if after_digit then Some acc else None
  | c :: s' =>
      if is_digit c then int_digits (10 * acc + digit_value c) true s'
      else if (c =? underscore)%N && after_digit then int_digits acc false s'
      else None
  end.

(** The characters that [int] skips before and after an ASCII literal:
    the space and the characters from tab to carriage return (the
    separators U+001C to U+001F, which [str.strip] removes, are not among
    them). *)
Definition is_int_space (c : codepoint) : bool :=
  ((9 <=? c) && (c <=? 13) || (c =? 32))%N.

Fixpoint skip_int_space (s : pystr) : pystr :=
  match s with
  | [] => []
  | c :: s' => if is_int_space c then skip_int_space s' else s
  end.

Definition int_strip (s : pystr) : pystr :=
  rev (skip_int_space (rev (skip_int_space s))).

(** [int(s)] for an ASCII string; [None] stands for [ValueError]. *)
Definition int_ascii (s : pystr) : option Z :=
  match int_strip s with
  | 45%N :: ds => option_map Z.opp (int_digits 0 false ds)
  | 43%N :: ds => int_digits 0 false ds
  | ds => int_digits 0 false ds
  end.

(** The limit the interpreter puts by default on the number of digits that
    [int] converts. *)
Definition int_max_str_digits : nat := 4300.

Class PyRuntime := {
  (** [s.lower()] and [s.upper()] *)
  str_lower : pystr -> pystr;
  str_upper : pystr -> pystr;
  (** [int(s)]; [None] stands for [ValueError] *)
  py_int : pystr -> option Z;
  (** whether a character of a pattern compiled with [re.IGNORECASE]
      matches a character of the text *)
  sre_ieq : codepoint -> codepoint -> bool;
  str_lower_ascii : forall s,
    forallb is_ascii s = true -> str_lower s = map ascii_lower s;
  str_upper_ascii : forall s,
    forallb is_ascii s = true -> str_upper s = map ascii_upper s;
  py_int_ascii : forall s,
    forallb is_ascii s = true -> (length s <= int_max_str_digits)%nat ->
    py_int s = int_ascii s;
  (** [int] accepts digits, signs, underscores and whitespace only *)
  py_int_not_all : forall s n, py_int s = Some n -> str_lower s <> u "all";
  sre_ieq_ascii : forall p c,
    is_ascii p = true -> is_ascii c = true ->
    sre_ieq p c = (ascii_lower p =? ascii_lower c)%N
}.

(** ** Replacement templates of the [re] module

    [Pattern.sub(repl, s)] reads [repl] as a template (the function
    [parse_template] of the module, here as in CPython 3.12). The pattern of
    [apply_rules] is an escaped literal and has no group, so that the only
    group a template can name is group 0, the whole match. *)

Inductive template_item :=
| TLiteral (c : codepoint)
| TGroup0.

Inductive template_state :=
| TText                                       (* between escapes *)
| TEscape                                     (* after a backslash *)
| TGroupOpen                                  (* after \g *)
| TGroupName (name : pystr)                   (* after \g<, name reversed *)
| TOctal0 (more : nat) (value : N)            (* after \0 *)
| TDigit (d : codepoint)                      (* after \1 .. \9 *)
| TDigits (d1 d2 : codepoint).                (* after two digits *)

(** The table [ESCAPES] of the template parser. *)
Definition template_escape (c : codepoint) : option codepoint :=
  if (c =? 97)%N then Some 7%N            (* \a *)
  else if (c =? 98)%N then Some 8%N       (* \b *)
  else if (c =? 102)%N then Some 12%N     (* \f *)
  else if (c =? 110)%N then Some 10%N     (* \n *)
  else if (c =? 114)%N then Some 13%N     (* \r *)
  else if (c =? 116)%N then Some 9%N      (* \t *)
  else if (c =? 118)%N then Some 11%N     (* \v *)
  else if (c =? backslash)%N then Some backslash
  else None.

Definition octal_value (c : codepoint) : N := (c - 48)%N.

Definition cons_item (i : template_item) (r : option (list template_item)) :=
  option_map (cons i) r.

(** The name of a group reference [\g<name>]: with no group in the pattern
    only a decimal name of value 0 is a valid reference. The name is
    converted with [int], which refuses a numeral of more digits than its
    limit, zeros included. *)
Definition group_name_is_0 (name : pystr) : bool :=
  match name with
  | [] => false
  | _ :: _ =>
      forallb (fun c => (c =? 48)%N) name &&
      (length name <=? int_max_str_digits)%nat
  end.

(** [parse_template]: [None] stands for the error the template compiler
    raises ([re.error], or [IndexError] for an unknown group name). *)
Fixpoint parse_template (st : template_state) (s : pystr)
    : option (list template_item) :=
  match s with
  | [] =>
      match st with
      | TText => Some []
      | TOctal0 _ v => Some [TLiteral (N.land v 255)]
      | _ => None
      end
  | c :: s' =>
      (* the character [c] read as ordinary template text *)
      let text :=
        if (c =? backslash)%N then parse_template TEscape s'
        else cons_item (TLiteral c) (parse_template TText s') in
      match st with
      | TText => text
      | TEscape =>
          if (c =? 103)%N then parse_template TGroupOpen s'
          else if (c =? 48)%N then parse_template (TOctal0 2 0) s'
          else if is_digit c then parse_template (TDigit c) s'
          else
            match template_escape c with
            | Some e => cons_item (TLiteral e) (parse_template TText s')
            | None =>
                if is_ascii_letter c then None
                else cons_item (TLiteral backslash)
                       (cons_item (TLiteral c) (parse_template TText s'))
            end
      | TGroupOpen =>
          if (c =? 60)%N then parse_template (TGroupName []) s' else None
      | TGroupName name =>
          if (c =? 62)%N then
            if group_name_is_0 name
            then cons_item TGroup0 (parse_template TText s')
            else None
          else parse_template (TGroupName (c :: name)) s'
      | TOctal0 (S more) v =>
          if is_octdigit c
          then parse_template (TOctal0 more (8 * v + octal_value c)) s'
          else cons_item (TLiteral (N.land v 255)) text
      | TOctal0 O v => cons_item (TLiteral (N.land v 255)) text
      | TDigit d =>
          if is_digit c && is_octdigit d && is_octdigit c
          then parse_template (TDigits d c) s'
          else None
      | TDigits d1 d2 =>
          if is_octdigit c then
            let v := (64 * octal_value d1 + 8 * octal_value d2 + octal_value c)%N in
            if (v <=? 255)%N
            then cons_item (TLiteral v) (parse_template TText s')
            else None
          else None
      end
  end.

Definition expand_template (items : list template_item) (matched : pystr) : pystr :=
  flat_map (fun i => match i with TLiteral c => [c] | TGroup0 => matched end) items.

(** ** Rules

    [parse_single_rule] returns a dictionary of one of three shapes
    (lines 145-150, 177-183 and 195-209 of the source); the
    key ["instance"] of a replacement holds the string ["all"] or an
    integer, the key ["operation"] one of ["upper"] and ["lower"]. *)

Inductive ordinal :=
| All
| Nth (n : Z).

Inductive operation :=
| Upper
| Lower.

Inductive target :=
| Position (position : Z)
| Character (char : pystr) (instance : Z).

Inductive rule :=
| Replace (char : pystr) (instance : ordinal) (replacement : pystr)
| CaseTransform (op : operation) (t : target).

(** The exceptions that leave [apply_rules]: [IndexError] from indexing a
    list, and what the template compiler of [re] raises ([re.error],
    [IndexError] for the name of a group that does not exist, [ValueError]
    for a group number beyond the digit limit of [int]). *)
Inductive exn :=
| IndexError
| TemplateError.

Inductive result (A : Type) :=
| Ok (a : A)
| Raise (e : exn).

Arguments Ok {A} a.
Arguments Raise {A} e.

(** What [parse_single_rule] prints when it returns [None]. *)
Inductive warning :=
| InvalidOperation (operation : pystr)
| InvalidPosition (value : pystr)
| AllNotSupported
| InvalidInstance (value : pystr)
| InvalidFormat (rule_text : pystr).

Inductive parsed :=
| Parsed (r : rule)
| Dropped (w : warning).

(** [chars[i]] on a list of length [len]: the index counted from the end
    when negative, [None] for [IndexError]. *)
Definition list_index (len : nat) (i : Z) : option nat :=
  if (0 <=? i)%Z && (i <? Z.of_nat len)%Z then Some (Z.to_nat i)
  else if (- Z.of_nat len <=? i)%Z && (i <? 0)%Z then Some (Z.to_nat (Z.of_nat len + i))
  else None.

(** ** The delimiter splitter *)

(** [re.split(r'(?<!\\)\|\|', text)] (line 125): the matches are looked
    for from the left and do not overlap; [escaped] tells whether the
    character before [s] is a backslash. *)
Fixpoint re_split (escaped : bool) (s : pystr) : list pystr :=
  match s with
  | [] => [[]]
  | c :: s' =>
      match s' with
      | c' :: s'' =>
          if (c =? pipe)%N && (c' =? pipe)%N && negb escaped
          then [] :: re_split false s''
          else push c (re_split (c =? backslash)%N s')
      | [] => push c (re_split (c =? backslash)%N s')
      end
  end.

(** [split_escaped_delimiters] (lines 121-127). *)
Definition split_escaped_delimiters (text delimiter : pystr) : list pystr :=
  let parts := re_split false text in
  map (fun part => strip (str_replace (backslash :: delimiter) delimiter part)) parts.

Section Engine.

Context {rt : PyRuntime}.

Definition transform (op : operation) (s : pystr) : pystr :=
  match op with
  | Upper => str_upper s
  | Lower => str_lower s
  end.

(** ** The rule engine *)

(** [pattern.sub(replacement, result)] for
    [pattern = re.compile(re.escape(char), re.IGNORECASE)]. *)
Definition re_sub_ignorecase (char replacement s : pystr) : result pystr :=
  match parse_template TText replacement with
  | Some items => Ok (sub_from sre_ieq char (expand_template items) 0 s)
  | None => Raise TemplateError
  end.

(** The tests of the four loops over the characters of the word: on
    [c == char] (lines 52 and 104) and on [c.lower() == char_lower] (lines 41
    and 91). *)
Definition same_char (char : pystr) (c : codepoint) : bool :=
  str_eqb [c] char.

Definition same_char_lower (char : pystr) (c : codepoint) : bool :=
  str_eqb (str_lower [c]) (str_lower char).

(** One turn of the loop [for c in result] that looks for the nth
    instance (lines 40-48, 51-59, 90-101 and 103-114): the state is
    [(count, new_result)], and [hit c] is what is appended in place of the
    instance. *)
Definition nth_step (test : codepoint -> bool) (instance : Z)
    (hit : codepoint -> pystr) (st : Z * pystr) (c : codepoint) : Z * pystr :=
  let (count, new_result) := st in
  if test c then
    let count := (count + 1)%Z in
    if (count =? instance)%Z then (count, new_result ++ hit c)
    else (count, new_result ++ [c])
  else (count, new_result ++ [c]).

Definition nth_loop (test : codepoint -> bool) (instance : Z)
    (hit : codepoint -> pystr) (s : pystr) : Z * pystr :=
  fold_left (nth_step test instance hit) s (0%Z, []).

(** The body of the loop [for rule in rules] (lines 17-117), on the word
    [s] that the rules before it have left. *)
Definition apply_rule (case_insensitive : bool) (s : pystr) (r : rule)
    : result pystr :=
  match r with
  | Replace char All replacement =>
      if case_insensitive then re_sub_ignorecase char replacement s
      else Ok (str_replace char replacement s)
  | Replace char (Nth instance) replacement =>
      let test :=
        if case_insensitive then same_char_lower char else same_char char in
      Ok (snd (nth_loop test instance (fun _ => replacement) s))
  | CaseTransform op (Position position) =>
      if (position <=? Z.of_nat (length s))%Z then
        match list_index (length s) (position - 1) with
        | Some i =>
            Ok (firstn i s ++ transform op (firstn 1 (skipn i s)) ++ skipn (S i) s)
        | None => Raise IndexError
        end
      else Ok s
  | CaseTransform op (Character char instance) =>
      let (count, new_result) :=
        match char with
        | [] => (0%Z, [])
        | _ :: _ =>
            let test :=
              if case_insensitive then same_char_lower char else same_char char in
            nth_loop test instance (fun c => transform op [c]) s
        end in
      if (0 <? count)%Z then Ok new_result else Ok s
  end.

(** [apply_rules] (lines 10-119). *)
Fixpoint apply_rules (word : pystr) (rules : list rule) (case_insensitive : bool)
    : result pystr :=
  match rules with
  | [] => Ok word
  | r :: rules' =>
      match apply_rule case_insensitive word r with
      | Ok s => apply_rules s rules' case_insensitive
      | Raise e => Raise e
      end
  end.

(** ** The rule parser *)

(** [operation in ["upper", "u", "lower", "l"]] and the normalization of
    the name of the operation. *)
Definition is_operation (s : pystr) : bool :=
  existsb (str_eqb s) [u "upper"; u "u"; u "lower"; u "l"].

Definition normalize (s : pystr) : operation :=
  if existsb (str_eqb s) [u "u"; u "upper"] then Upper else Lower.

(** [parse_single_rule] (lines 129-215). *)
Definition parse_single_rule (rule_text : pystr) : parsed :=
  let parts := py_split rule_text in
  let part i := nth i parts [] in
  if (length parts =? 3)%nat && str_eqb (str_lower (part 0%nat)) (u "pos") then
    match py_int (part 1%nat) with
    | Some position =>
        let operation := str_lower (part 2%nat) in
        if is_operation operation
        then Parsed (CaseTransform (normalize operation) (Position position))
        else Dropped (InvalidOperation operation)
    | None => Dropped (InvalidPosition (part 1%nat))
    end
  else if (length parts =? 3)%nat && is_operation (str_lower (part 2%nat)) then
    let char := part 0%nat in
    let instance_str := part 1%nat in
    let operation := normalize (str_lower (part 2%nat)) in
    if str_eqb (str_lower instance_str) (u "all") then Dropped AllNotSupported
    else
      match py_int instance_str with
      | Some instance => Parsed (CaseTransform operation (Character char instance))
      | None => Dropped (InvalidInstance instance_str)
      end
  else if (3 <=? length parts)%nat then
    let char := part 0%nat in
    let instance := part 1%nat in
    let replacement := part 2%nat in
    if str_eqb (str_lower instance) (u "all") then Parsed (Replace char All replacement)
    else
      match py_int instance with
      | Some n => Parsed (Replace char (Nth n) replacement)
      | None => Dropped (InvalidInstance instance)
      end
  else Dropped (InvalidFormat rule_text).

End Engine.

(** ** The parser, step by step

    [parse_single_rule] once more, following the statements of lines
    129-215 one by one with the exceptions that they can raise: indexing
    the list of the parts raises [IndexError] out of range, [int] raises
    [ValueError], and the [try] blocks catch [ValueError] only. *)

Inductive py_exception :=
| PyValueError
| PyIndexError.

Inductive run (A : Type) :=
| Returns (a : A)
| Raises (e : py_exception).

Arguments Returns {A} a.
Arguments Raises {A} e.

Definition run_bind {A B : Type} (c : run A) (k : A -> run B) : run B :=
  match c with
  | Returns a => k a
  | Raises e => Raises e
  end.

Notation "x <- c ;; k" := (run_bind c (fun x => k))
  (at level 61, c at next level, right associativity).

(** [parts[i]] *)
Definition item (parts : list pystr) (i : nat) : run pystr :=
  match nth_error parts i with
  | Some part => Returns part
  | None => Raises PyIndexError
  end.

(** [int(s)] *)
Definition int_run {rt : PyRuntime} (s : pystr) : run Z :=
  match py_int s with
  | Some n => Returns n
  | None => Raises PyValueError
  end.

(** [try: body], [except ValueError: handler] *)
Definition try_except_ValueError {A : Type} (body handler : run A) : run A :=
  match body with
  | Raises PyValueError => handler
  | _ => body
  end.

(** [a and b]: [b] is evaluated only when [a] holds. *)
Definition and_run (a : bool) (b : run bool) : run bool :=
  if a then b else Returns false.

(** The branch of the case transformation at a position (lines 134-157). *)
Definition parse_position_run {rt : PyRuntime} (parts : list pystr) : run parsed :=
  try_except_ValueError
    (second <- item parts 1 ;;
     position <- int_run second ;;
     third <- item parts 2 ;;
     (let operation := str_lower third in
      if is_operation operation
      then Returns (Parsed (CaseTransform (normalize operation) (Position position)))
      else Returns (Dropped (InvalidOperation operation))))
    (second <- item parts 1 ;;
     Returns (Dropped (InvalidPosition second))).

(** The branch of the case transformation of a character (lines
    160-186). *)
Definition parse_character_run {rt : PyRuntime} (parts : list pystr) : run parsed :=
  char <- item parts 0 ;;
  instance_str <- item parts 1 ;;
  third <- item parts 2 ;;
  (let operation := normalize (str_lower third) in
   if str_eqb (str_lower instance_str) (u "all")
   then Returns (Dropped AllNotSupported)
   else
     try_except_ValueError
       (instance <- int_run instance_str ;;
        Returns (Parsed (CaseTransform operation (Character char instance))))
       (Returns (Dropped (InvalidInstance instance_str)))).

(** The branch of the replacement (lines 189-212). *)
Definition parse_replace_run {rt : PyRuntime} (parts : list pystr) : run parsed :=
  char <- item parts 0 ;;
  instance <- item parts 1 ;;
  replacement <- item parts 2 ;;
  (if str_eqb (str_lower instance) (u "all")
   then Returns (Parsed (Replace char All replacement))
   else
     try_except_ValueError
       (n <- int_run instance ;;
        Returns (Parsed (Replace char (Nth n) replacement)))
       (Returns (Dropped (InvalidInstance instance)))).

Definition parse_single_rule_run {rt : PyRuntime} (rule_text : pystr) : run parsed :=
  let parts := py_split rule_text in
  is_position <-
    and_run (length parts =? 3)%nat
      (first <- item parts 0 ;;
       Returns (str_eqb (str_lower first) (u "pos"))) ;;
  (if is_position then parse_position_run parts
   else
     is_character <-
       and_run (length parts =? 3)%nat
         (third <- item parts 2 ;;
          Returns (is_operation (str_lower third))) ;;
     (if is_character then parse_character_run parts
      else if (3 <=? length parts)%nat then parse_replace_run parts
      else Returns (Dropped (InvalidFormat rule_text)))).

(** * The notions of the specification *)

(** The splitter as the specification words it, in one scan from the
    left: a backslash followed by the delimiter stands for the delimiter as
    text, any other delimiter ends the fragment, and every other character,
    a backslash included, is kept. The fragments are then trimmed. *)
Fixpoint split_scan (s : pystr) : list pystr :=
  match s with
  | [] => [[]]
  | c :: s' =>
      match s' with
      | c1 :: s2 =>
          if (c =? pipe)%N && (c1 =? pipe)%N then [] :: split_scan s2
          else
            match s2 with
            | c2 :: s3 =>
                if (c =? backslash)%N && (c1 =? pipe)%N && (c2 =? pipe)%N
                then push pipe (push pipe (split_scan s3))
                else push c (split_scan s')
            | [] => push c (split_scan s')
            end
      | [] => push c (split_scan s')
      end
  end.

Definition split_by_scan (line : pystr) : list pystr :=
  map strip (split_scan line).

(** What the splitter does to a part once the line is split. *)
Definition unescape (part : pystr) : pystr :=
  str_replace [backslash; pipe; pipe] [pipe; pipe] part.

(** A string is trimmed when it neither starts nor ends with
    whitespace. *)
Definition starts_clean (s : pystr) : bool :=
  match s with
  | [] => true
  | c :: _ => negb (isspace c)
  end.

Definition trimmed (s : pystr) : bool :=
  starts_clean s && starts_clean (rev s).

(** The number of characters of [s] that pass the test. *)
Definition count_matches (test : codepoint -> bool) (s : pystr) : Z :=
  Z.of_nat (length (filter test s)).

(** Whether [c] is an occurrence of [char]: by exact comparison, or by
    comparison of the lowercased forms. *)
Definition is_match {rt : PyRuntime} (case_insensitive : bool) (char : pystr) (c : codepoint) : bool :=
  if case_insensitive then str_eqb (str_lower [c]) (str_lower char)
  else str_eqb [c] char.

(** The keywords of an operation and the operation each stands for. *)
Inductive keyword : pystr -> operation -> Prop :=
| keyword_upper : keyword (u "upper") Upper
| keyword_u : keyword (u "u") Upper
| keyword_lower : keyword (u "lower") Lower
| keyword_l : keyword (u "l") Lower.

(** The ordinal a rule carries: the position, or the number of the
    instance. *)
Definition rule_ordinal (r : rule) : option Z :=
  match r with
  | Replace _ All _ => None
  | Replace _ (Nth n) _ => Some n
  | CaseTransform _ (Position p) => Some p
  | CaseTransform _ (Character _ n) => Some n
  end.

(** The invariant of the data model: ordinals are 1-based. *)
Definition positive_ordinals (r : rule) : Prop :=
  forall n, rule_ordinal r = Some n -> (1 <= n)%Z.

(** The replacement of a rule for all instances is a template that the
    [re] module accepts. *)
Definition template_accepted (r : rule) : Prop :=
  match r with
  | Replace _ All replacement => parse_template TText replacement <> None
  | _ => True
  end.

(** A token: a string that is not empty and holds no whitespace. *)
Definition is_token (w : pystr) : bool :=
  negb (str_eqb w []) && negb (existsb isspace w).

(** The strings of the fragment that a rule keeps: [char] and
    [replacement]. *)
Definition rule_tokens (r : rule) : list pystr :=
  match r with
  | Replace char _ replacement => [char; replacement]
  | CaseTransform _ (Position _) => []
  | CaseTransform _ (Character char _) => [char]
  end.

(** [sep.join(l)] *)
Fixpoint join (sep : pystr) (l : list pystr) : pystr :=
  match l with
  | [] => []
  | [x] => x
  | x :: l' => x ++ sep ++ join sep l'
  end.

(** ** Reading the rules

    [read_rules] (lines 216-242) on a file given as the lines that the
    iteration over it yields, or as [None] when there is no such file. *)

(** The loop over the parts of a line (lines 232-235, and 290-293 in
    [main]): the rules that are kept, in order, and the warnings that
    [parse_single_rule] prints. *)
Fixpoint parse_rule_parts {rt : PyRuntime} (rule_parts : list pystr)
    : list rule * list warning :=
  match rule_parts with
  | [] => ([], [])
  | rule_text :: rule_parts' =>
      let (ruleset, warnings) := parse_rule_parts rule_parts' in
      match parse_single_rule rule_text with
      | Parsed r => (r :: ruleset, warnings)
      | Dropped w => (ruleset, w :: warnings)
      end
  end.

(** [not line or line.startswith("#")], on the stripped line. *)
Definition is_skipped (line : pystr) : bool :=
  str_eqb line [] || startswith N.eqb (u "#") line.

(** The body of the loop [for line in f]: the rulesets with the one of the
    line appended if there is one, and the warnings printed. *)
Definition read_rules_line {rt : PyRuntime} (line : pystr)
    : list (list rule) * list warning :=
  let line := strip line in
  if is_skipped line then ([], [])
  else
    let rule_parts := split_escaped_delimiters line (u "||") in
    let (ruleset, warnings) := parse_rule_parts rule_parts in
    match ruleset with
    | [] => ([], warnings)
    | _ :: _ => ([ruleset], warnings)
    end.

Fixpoint read_rules_lines {rt : PyRuntime} (lines : list pystr)
    : list (list rule) * list warning :=
  match lines with
  | [] => ([], [])
  | line :: lines' =>
      let (rulesets1, warnings1) := read_rules_line line in
      let (rulesets2, warnings2) := read_rules_lines lines' in
      (rulesets1 ++ rulesets2, warnings1 ++ warnings2)
  end.

(** What [read_rules] does: it returns the rulesets, having printed the
    warnings, or prints that the file is not found and exits with status
    1. *)
Inductive read_outcome :=
| Rulesets (rulesets : list (list rule)) (warnings : list warning)
| ExitNotFound.

Definition read_rules {rt : PyRuntime} (rule_file : option (list pystr))
    : read_outcome :=
  match rule_file with
  | Some lines =>
      let (rulesets, warnings) := read_rules_lines lines in
      Rulesets rulesets warnings
  | None => ExitNotFound
  end.

(** ** The descriptions of the rulesets

    [main] describes every ruleset for the output (lines 300-318). *)

(** The decimal digits of a number, as characters. *)
Fixpoint uint_codes (d : Decimal.uint) : pystr :=
  match d with
  | Decimal.Nil => []
  | Decimal.D0 d => 48%N :: uint_codes d
  | Decimal.D1 d => 49%N :: uint_codes d
  | Decimal.D2 d => 50%N :: uint_codes d
  | Decimal.D3 d => 51%N :: uint_codes d
  | Decimal.D4 d => 52%N :: uint_codes d
  | Decimal.D5 d => 53%N :: uint_codes d
  | Decimal.D6 d => 54%N :: uint_codes d
  | Decimal.D7 d => 55%N :: uint_codes d
  | Decimal.D8 d => 56%N :: uint_codes d
  | Decimal.D9 d => 57%N :: uint_codes d
  end.

(** The decimal numeral of an integer. *)
Definition int_codes (n : Z) : pystr :=
  match n with
  | Z0 => [48%N]
  | Zpos p => uint_codes (Pos.to_uint p)
  | Zneg p => 45%N :: uint_codes (Pos.to_uint p)
  end.

(** [str(n)], which is how an f-string formats an integer: the decimal
    numeral, or [None] for the [ValueError] of a number with more digits
    than the limit of the interpreter. *)
Definition py_str_int (n : Z) : option pystr :=
  if (length (int_codes (Z.abs n)) <=? int_max_str_digits)%nat
  then Some (int_codes n)
  else None.

Definition operation_name (op : operation) : pystr :=
  match op with
  | Upper => u "upper"
  | Lower => u "lower"
  end.

(** The description of one rule (lines 304-316). *)
Definition describe_rule (r : rule) : option pystr :=
  match r with
  | Replace char All replacement =>
      Some (char ++ u " " ++ u "all" ++ u " " ++ replacement)
  | Replace char (Nth instance) replacement =>
      option_map (fun i => char ++ u " " ++ i ++ u " " ++ replacement)
        (py_str_int instance)
  | CaseTransform op (Position position) =>
      option_map (fun i => u "pos " ++ i ++ u " " ++ operation_name op)
        (py_str_int position)
  | CaseTransform op (Character char instance) =>
      option_map (fun i => char ++ u " " ++ i ++ u " " ++ operation_name op)
        (py_str_int instance)
  end.

(** The list [ruleset_desc] of a ruleset (lines 302-316). *)
Fixpoint describe_rules (ruleset : list rule) : option (list pystr) :=
  match ruleset with
  | [] => Some []
  | r :: ruleset' =>
      match describe_rule r with
      | Some d => option_map (cons d) (describe_rules ruleset')
      | None => None
      end
  end.

(** [ruleset_description] (line 318). *)
Definition ruleset_description (ruleset : list rule) : option pystr :=
  option_map (join (u " || ")) (describe_rules ruleset).

(** ** The generation of the words

    The loop of [main] that applies every ruleset to every word (lines
    298-326), and the reading of the words before it (lines 259-264). *)

(** The words of the wordlist, given as the lines that [readlines]
    returns, or as [None] when there is no such file, in which case [main]
    exits with status 1. *)
Definition read_words (wordlist : option (list pystr)) : option (list pystr) :=
  option_map (map strip) wordlist.

(** An element of [all_generated_words]. *)
Record generated_word := {
  original : pystr;
  transformed : pystr;
  ruleset_index : Z;
  ruleset : pystr
}.

(** The exceptions that leave the loop: the [ValueError] of the formatting
    of an integer, and those of [apply_rules]. *)
Inductive uncaught :=
| ValueError
| EngineError (e : exn).

(** What the loop leaves: the lists [all_generated_words] and
    [ruleset_descriptions], or an exception that nothing catches. *)
Inductive generation :=
| Generated (all_generated_words : list generated_word)
    (ruleset_descriptions : list pystr)
| Uncaught (e : uncaught).

(** The inner loop [for word in words] (lines 321-326). *)
Fixpoint apply_ruleset {rt : PyRuntime} (words : list pystr) (rules : list rule)
    (case_insensitive : bool) (index : Z) (description : pystr)
    : result (list generated_word) :=
  match words with
  | [] => Ok []
  | word :: words' =>
      match apply_rules word rules case_insensitive with
      | Ok new_word =>
          match apply_ruleset words' rules case_insensitive index description with
          | Ok generated =>
              Ok ({| original := word; transformed := new_word;
                     ruleset_index := index; ruleset := description |}
                  :: generated)
          | Raise e => Raise e
          end
      | Raise e => Raise e
      end
  end.

(** The loop [for ruleset_index, ruleset in enumerate(rulesets, 1)], from
    the index [index] on. *)
Fixpoint generate_from {rt : PyRuntime} (index : Z) (rulesets : list (list rule))
    (words : list pystr) (case_insensitive : bool) : generation :=
  match rulesets with
  | [] => Generated [] []
  | rules :: rulesets' =>
      match ruleset_description rules with
      | None => Uncaught ValueError
      | Some description =>
          match apply_ruleset words rules case_insensitive index description with
          | Raise e => Uncaught (EngineError e)
          | Ok generated =>
              match generate_from (index + 1) rulesets' words case_insensitive with
              | Generated more descriptions =>
                  Generated (generated ++ more) (description :: descriptions)
              | Uncaught e => Uncaught e
              end
          end
      end
  end.

Definition generate {rt : PyRuntime} (rulesets : list (list rule))
    (words : list pystr) (case_insensitive : bool) : generation :=
  generate_from 1 rulesets words case_insensitive.

(** The rules whose description cannot be taken for a rule of another
    shape: [char] is not "pos", and a replacement is not the keyword of an
    operation. *)
Definition plain_rule {rt : PyRuntime} (r : rule) : Prop :=
  match r with
  | Replace char _ replacement =>
      str_lower char <> u "pos" /\ is_operation (str_lower replacement) = false
  | CaseTransform _ (Position _) => True
  | CaseTransform _ (Character char _) => str_lower char <> u "pos"
  end.

(** A fragment that can stand in a line of rules: it holds no ['|'], is
    not empty and is trimmed. *)
Definition clean_fragment (d : pystr) : Prop :=
  existsb (N.eqb pipe) d = false /\ d <> [] /\
  starts_clean d = true /\ starts_clean (rev d) = true.

(** The rules that a line of rules can hold as their description. *)
Definition line_rule {rt : PyRuntime} (r : rule) : Prop :=
  Forall (fun w => is_token w = true /\ existsb (N.eqb pipe) w = false)
    (rule_tokens r) /\
  plain_rule r /\
  (forall n, rule_ordinal r = Some n ->
     (length (int_codes n) <= int_max_str_digits)%nat).

(** ** The rulesets typed in

    Without a file of rules, [main] reads the rulesets from the terminal
    (lines 278-296): [inputs] are the lines that [input] returns one after
    the other, and [input] raises [EOFError] when there is none left. *)

Inductive interactive_outcome :=
| Entered (rulesets : list (list rule)) (warnings : list warning)
| EOFError (warnings : list warning).

Fixpoint interactive_rulesets {rt : PyRuntime} (inputs : list pystr)
    : interactive_outcome :=
  match inputs with
  | [] => EOFError []
  | rule_input :: inputs' =>
      if str_eqb (str_lower rule_input) (u "done") then Entered [] []
      else
        let rule_parts := split_escaped_delimiters rule_input (u "||") in
        let (ruleset, warnings) := parse_rule_parts rule_parts in
        let added :=
          match ruleset with
          | [] => []
          | _ :: _ => [ruleset]
          end in
        match interactive_rulesets inputs' with
        | Entered rulesets warnings' =>
            Entered (added ++ rulesets) (warnings ++ warnings')
        | EOFError warnings' => EOFError (warnings ++ warnings')
        end
  end.

(** ** A runtime for ASCII text

    The runtime that leaves every character outside ASCII as it is and
    reads numerals of any length; it serves to run the definitions on ASCII
    input. *)
Definition ascii_runtime : PyRuntime.
Proof.
  refine {|
    str_lower := map ascii_lower;
    str_upper := map ascii_upper;
    py_int := int_ascii;
    sre_ieq := fun p c => (ascii_lower p =? ascii_lower c)%N;
    str_lower_ascii := fun s _ => eq_refl;
    str_upper_ascii := fun s _ => eq_refl;
    py_int_ascii := fun s _ _ => eq_refl;
    py_int_not_all := _;
    sre_ieq_ascii := fun p c _ _ => eq_refl
  |}.
  assert (Hinv : forall c x, ascii_lower c = x -> c = x \/ c = (x - 32)%N).
  { intros c x; unfold ascii_lower.
    destruct ((65 <=? c) && (c <=? 90))%N; intros <-; [right | left]; lia. }
  intros s n Hint Hall.
  destruct s as [|a [|b [|c [|d s]]]]; try discriminate Hall.
  injection Hall as Ha Hb Hc.
  apply Hinv in Ha, Hb, Hc.
  destruct Ha as [-> | ->], Hb as [-> | ->], Hc as [-> | ->];
    vm_compute in Hint; discriminate Hint.
Defined.

Ltac eval_parse :=
  unfold parse_single_rule;
  match goal with
  | |- context [py_split ?x] =>
      let t := eval vm_compute in (py_split x) in change (py_split x) with t
  end;
  cbn [nth length Nat.eqb Nat.leb andb];
  rewrite ?str_lower_ascii by reflexivity;
  rewrite ?py_int_ascii by (try reflexivity; vm_compute; lia);
  reflexivity.

(** * Properties *)

(** ** Strings *)

Lemma str_eqb_eq (a b : pystr) : str_eqb a b = true <-> a = b.
Proof.
  revert b; induction a as [|x a IH]; intros [|y b]; simpl;
    try (split; (discriminate || reflexivity)).
  rewrite andb_true_iff, N.eqb_eq, IH.
  split; [intros [-> ->]; reflexivity | intros [= -> ->]; auto].
Qed.

Lemma str_eqb_refl (a : pystr) : str_eqb a a = true.
Proof. apply str_eqb_eq; reflexivity. Qed.

Lemma str_eqb_neq (a b : pystr) : a <> b -> str_eqb a b = false.
Proof.
  intros H; destruct (str_eqb a b) eqn:E; [|reflexivity].
  apply str_eqb_eq in E; contradiction.
Qed.

(** ** The delimiter splitter *)

Lemma unescape_escaped (p : pystr) :
  unescape (backslash :: pipe :: pipe :: p) = pipe :: pipe :: unescape p.
Proof. reflexivity. Qed.

Lemma unescape_cons (c : codepoint) (p : pystr) :
  startswith N.eqb [backslash; pipe; pipe] (c :: p) = false ->
  unescape (c :: p) = c :: unescape p.
Proof.
  intros H; unfold unescape, str_replace.
  cbn [sub_from]; rewrite H; reflexivity.
Qed.

Lemma unescape_nil : unescape [] = [].
Proof. reflexivity. Qed.

Lemma startswith_cons (eqc : codepoint -> codepoint -> bool) (x y : codepoint)
    (p s : pystr) :
  startswith eqc (x :: p) (y :: s) = eqc x y && startswith eqc p s.
Proof. reflexivity. Qed.

Lemma startswith_app (p s t : pystr) :
  startswith N.eqb p (s ++ t) = false -> startswith N.eqb p s = false.
Proof.
  revert s; induction p as [|x p IH]; intros [|y s]; simpl; auto.
  intros H; apply andb_false_iff in H; apply andb_false_iff.
  destruct H as [H|H]; [left | right]; auto.
Qed.

(** The first part of a split is a prefix of the text. *)
Lemma re_split_prefix (s : pystr) : forall escaped,
  exists p ps rest, re_split escaped s = p :: ps /\ s = p ++ rest.
Proof.
  induction s as [|c s IH]; intros escaped.
  - exists [], [], []; auto.
  - assert (Hpush : exists p ps rest,
      push c (re_split (c =? backslash)%N s) = p :: ps /\ c :: s = p ++ rest).
    { destruct (IH (c =? backslash)%N) as (p & ps & rest & -> & ->).
      exists (c :: p), ps, rest; auto. }
    destruct s as [|c1 s2]; [exact Hpush|].
    cbn [re_split].
    destruct ((c =? pipe)%N && (c1 =? pipe)%N && negb escaped); [|exact Hpush].
    exists [], (re_split false s2), (c :: c1 :: s2); auto.
Qed.

Lemma occurs_tail (pat : pystr) (c : codepoint) (s : pystr) :
  occurs pat (c :: s) = false -> occurs pat s = false.
Proof. simpl; intros H; apply orb_false_iff in H; tauto. Qed.

Lemma occurs_head (pat : pystr) (s : pystr) :
  occurs pat s = false -> startswith N.eqb pat s = false.
Proof. destruct s; simpl; intros H; apply orb_false_iff in H; tauto. Qed.

Lemma map_unescape_push (c : codepoint) (l : list pystr) :
  l <> [] ->
  startswith N.eqb [backslash; pipe; pipe] (c :: hd [] l) = false ->
  map unescape (push c l) = push c (map unescape l).
Proof.
  destruct l as [|p ps]; [congruence|]; intros _ H; simpl in *.
  rewrite unescape_cons by exact H; reflexivity.
Qed.

Lemma re_split_not_nil (escaped : bool) (s : pystr) : re_split escaped s <> [].
Proof.
  destruct (re_split_prefix s escaped) as (p & ps & rest & -> & _); discriminate.
Qed.

Lemma re_split_head (escaped : bool) (pat s : pystr) :
  startswith N.eqb pat s = false ->
  startswith N.eqb pat (hd [] (re_split escaped s)) = false.
Proof.
  destruct (re_split_prefix s escaped) as (p & ps & rest & -> & ->).
  apply startswith_app.
Qed.

Lemma re_split_eq (escaped : bool) (c c1 : codepoint) (s2 : pystr) :
  re_split escaped (c :: c1 :: s2) =
  if (c =? pipe)%N && (c1 =? pipe)%N && negb escaped
  then [] :: re_split false s2
  else push c (re_split (c =? backslash)%N (c1 :: s2)).
Proof. reflexivity. Qed.

Lemma split_scan_eq (c c1 : codepoint) (s2 : pystr) :
  split_scan (c :: c1 :: s2) =
  if (c =? pipe)%N && (c1 =? pipe)%N then [] :: split_scan s2
  else if (c =? backslash)%N && startswith N.eqb [pipe; pipe] (c1 :: s2)
  then push pipe (push pipe (split_scan (tl s2)))
  else push c (split_scan (c1 :: s2)).
Proof.
  cbn [split_scan startswith tl].
  destruct ((c =? pipe)%N && (c1 =? pipe)%N); [reflexivity|].
  destruct s2 as [|c2 s3]; cbn [tl].
  - rewrite !andb_false_r; reflexivity.
  - rewrite andb_true_r, andb_assoc, (N.eqb_sym pipe c1), (N.eqb_sym pipe c2).
    reflexivity.
Qed.

(** A delimiter that follows an escaped delimiter is split on by
    [re_split] and not by [split_scan]; elsewhere the two agree. *)
Lemma re_split_scan (n : nat) : forall (s : pystr) (escaped : bool),
  (length s <= n)%nat ->
  occurs [backslash; pipe; pipe; pipe] s = false ->
  (escaped = true -> startswith N.eqb [pipe; pipe] s = false) ->
  map unescape (re_split escaped s) = split_scan s.
Proof.
  induction n as [|n IH]; intros s escaped Hlen Hbad Hesc.
  { destruct s; [reflexivity | simpl in Hlen; lia]. }
  destruct s as [|c s']; [reflexivity|].
  assert (Hstep : (c = backslash -> startswith N.eqb [pipe; pipe] s' = false) ->
    map unescape (push c (re_split (c =? backslash)%N s')) = push c (split_scan s')).
  { intros Hc.
    rewrite map_unescape_push.
    - f_equal; apply IH.
      + simpl in Hlen; lia.
      + exact (occurs_tail _ _ _ Hbad).
      + intros E; apply N.eqb_eq in E; auto.
    - apply re_split_not_nil.
    - rewrite startswith_cons.
      destruct (N.eqb_spec backslash c) as [E|E]; [|reflexivity].
      rewrite re_split_head by (apply Hc; congruence); reflexivity. }
  destruct s' as [|c1 s2].
  { cbn [re_split split_scan] in *; apply Hstep; reflexivity. }
  rewrite re_split_eq, split_scan_eq.
  destruct ((c =? pipe)%N && (c1 =? pipe)%N) eqn:Hpp.
  - (* an unescaped delimiter *)
    apply andb_true_iff in Hpp; destruct Hpp as [Hc Hc1].
    apply N.eqb_eq in Hc, Hc1; subst c c1.
    destruct escaped; [specialize (Hesc eq_refl); discriminate Hesc|].
    cbn [negb andb map]; rewrite unescape_nil; f_equal.
    apply IH; [simpl in Hlen; lia | | discriminate].
    exact (occurs_tail _ _ _ (occurs_tail _ _ _ Hbad)).
  - cbn [andb].
    destruct ((c =? backslash)%N && startswith N.eqb [pipe; pipe] (c1 :: s2)) eqn:Hbs.
    + (* an escaped delimiter *)
      apply andb_true_iff in Hbs; destruct Hbs as [Hc Hd].
      apply N.eqb_eq in Hc; subst c.
      destruct s2 as [|c2 s3]; [cbn in Hd; rewrite andb_false_r in Hd; discriminate|].
      cbn [startswith] in Hd; rewrite andb_true_r in Hd.
      apply andb_true_iff in Hd; destruct Hd as [Hc1 Hc2].
      apply N.eqb_eq in Hc1, Hc2; subst c1 c2.
      cbn [tl].
      assert (Hs3 : startswith N.eqb [pipe] s3 = false).
      { apply occurs_head in Hbad; cbn [startswith] in Hbad.
        rewrite !N.eqb_refl in Hbad; exact Hbad. }
      assert (Hnext : re_split false (pipe :: s3) = push pipe (re_split false s3)).
      { destruct s3 as [|c3 s4]; [reflexivity|].
        rewrite re_split_eq.
        cbn [startswith] in Hs3; rewrite andb_true_r, N.eqb_sym in Hs3.
        rewrite Hs3; reflexivity. }
      rewrite N.eqb_refl, re_split_eq.
      cbn [negb andb]; rewrite andb_false_r.
      change (pipe =? backslash)%N with false; rewrite Hnext.
      assert (Hrec : map unescape (re_split false s3) = split_scan s3).
      { apply IH; [simpl in Hlen; lia | | discriminate].
        exact (occurs_tail _ _ _ (occurs_tail _ _ _ (occurs_tail _ _ _ Hbad))). }
      destruct (re_split false s3) as [|p ps] eqn:Hsplit.
      { exfalso; exact (re_split_not_nil _ _ Hsplit). }
      rewrite <- Hrec; cbn [push map]; rewrite unescape_escaped; reflexivity.
    + apply Hstep; intros ->.
      rewrite N.eqb_refl in Hbs; exact Hbs.
Qed.

(** Without any delimiter the scan returns the line. *)
Lemma split_scan_whole (s : pystr) :
  occurs [pipe; pipe] s = false -> split_scan s = [s].
Proof.
  induction s as [|c s IH]; intros H; [reflexivity|].
  pose proof (occurs_head _ _ H) as Hhd.
  specialize (IH (occurs_tail _ _ _ H)).
  destruct s as [|c1 s2]; [reflexivity|].
  rewrite split_scan_eq, IH.
  cbn [startswith] in Hhd; rewrite andb_true_r in Hhd.
  rewrite (N.eqb_sym c pipe), (N.eqb_sym c1 pipe), Hhd.
  pose proof (occurs_head _ _ (occurs_tail _ _ _ H)) as Hhd'.
  rewrite Hhd', andb_false_r; reflexivity.
Qed.

Lemma lstrip_clean (s : pystr) : starts_clean (lstrip s) = true.
Proof.
  induction s as [|c s IH]; [reflexivity|]; simpl.
  destruct (isspace c) eqn:E; [exact IH | simpl; rewrite E; reflexivity].
Qed.

Lemma lstrip_keeps_last (l : pystr) (c : codepoint) :
  isspace c = false -> exists w, lstrip (l ++ [c]) = w ++ [c].
Proof.
  intros Hc; induction l as [|x l IH]; simpl.
  - rewrite Hc; exists []; reflexivity.
  - destruct (isspace x); [exact IH | exists (x :: l); reflexivity].
Qed.

Lemma rstrip_clean (s : pystr) :
  starts_clean s = true -> starts_clean (rstrip s) = true.
Proof.
  destruct s as [|c s]; [reflexivity|]; simpl; intros Hc.
  apply negb_true_iff in Hc; unfold rstrip; simpl rev.
  destruct (lstrip_keeps_last (rev s) c Hc) as [w ->].
  rewrite rev_app_distr; simpl; rewrite Hc; reflexivity.
Qed.

Lemma strip_trimmed (s : pystr) : trimmed (strip s) = true.
Proof.
  unfold trimmed, strip; apply andb_true_iff; split.
  - apply rstrip_clean, lstrip_clean.
  - unfold rstrip; rewrite rev_involutive; apply lstrip_clean.
Qed.

Lemma occurs_longer (x : codepoint) (pat s : pystr) :
  occurs pat s = false -> occurs (x :: pat) s = false.
Proof.
  induction s as [|y s IH]; intros H; [reflexivity|].
  pose proof (occurs_tail _ _ _ H) as Ht.
  cbn [occurs]; rewrite startswith_cons, (occurs_head _ _ Ht), (IH Ht).
  rewrite andb_false_r; reflexivity.
Qed.

(** *** C6: the splitter with the default delimiter *)

(** C6 (amended): on a line in which no escaped delimiter is directly
    followed by a further ['|'], [split_escaped_delimiters] with the
    delimiter ["||"] is the scan from the left that splits on each ["||"]
    not preceded by a backslash, keeps a backslash followed by ["||"] as the
    text ["||"] without the backslash, and keeps every other character, a
    stray backslash included; on every line each fragment is trimmed of
    leading and trailing whitespace, and a line without delimiter gives one
    fragment.  ["a || b"] gives ["a"] and ["b"]; ["a \|| b"] gives
    ["a || b"]. *)
Theorem split_escaped_delimiters_default :
  (forall line,
      occurs (u "\|||") line = false ->
      split_escaped_delimiters line (u "||") = split_by_scan line) /\
  (forall line fragment,
      In fragment (split_escaped_delimiters line (u "||")) ->
      trimmed fragment = true) /\
  (forall line,
      occurs (u "||") line = false ->
      split_escaped_delimiters line (u "||") = [strip line]) /\
  split_escaped_delimiters (u "a || b") (u "||") = [u "a"; u "b"] /\
  split_escaped_delimiters (u "a \|| b") (u "||") = [u "a || b"].
Proof.
  assert (Hscan : forall line, occurs (u "\|||") line = false ->
    split_escaped_delimiters line (u "||") = split_by_scan line).
  { intros line Hbad; unfold split_escaped_delimiters, split_by_scan.
    rewrite <- (re_split_scan (length line) line false);
      [| apply Nat.le_refl | exact Hbad | discriminate].
    rewrite map_map; reflexivity. }
  split; [exact Hscan|]; split; [|split; [|split; reflexivity]].
  - intros line fragment Hin; unfold split_escaped_delimiters in Hin.
    apply in_map_iff in Hin; destruct Hin as (part & <- & _).
    apply strip_trimmed.
  - intros line Hnone.
    rewrite Hscan by (apply occurs_longer, occurs_longer; exact Hnone).
    unfold split_by_scan; rewrite split_scan_whole by exact Hnone; reflexivity.
Qed.

(** *** C7: the delimiter argument *)

(** C7: the pattern on which [split_escaped_delimiters] splits is fixed to
    ["||"]; with the delimiter [","] the text ["a,b"] is not split, and the
    text ["a||b"] is. *)
Theorem split_ignores_delimiter_argument :
  split_escaped_delimiters (u "a,b") (u ",") = [u "a,b"] /\
  split_escaped_delimiters (u "a||b") (u ",") = [u "a"; u "b"].
Proof. split; reflexivity. Qed.

(** ** The loop that looks for the nth instance *)

Section NthLoop.

Variable test : codepoint -> bool.
Variable instance : Z.
Variable hit : codepoint -> pystr.

Lemma count_matches_nonneg (s : pystr) : (0 <= count_matches test s)%Z.
Proof. unfold count_matches; lia. Qed.

Lemma count_matches_cons (c : codepoint) (s : pystr) :
  count_matches test (c :: s) =
  ((if test c then 1 else 0) + count_matches test s)%Z.
Proof.
  unfold count_matches; simpl; destruct (test c); simpl length; lia.
Qed.

Lemma count_matches_app (s t : pystr) :
  count_matches test (s ++ t) = (count_matches test s + count_matches test t)%Z.
Proof.
  unfold count_matches; rewrite filter_app, length_app; lia.
Qed.

Lemma nth_step_eq (count : Z) (acc : pystr) (c : codepoint) :
  nth_step test instance hit (count, acc) c =
  if test c then
    if (count + 1 =? instance)%Z then ((count + 1)%Z, acc ++ hit c)
    else ((count + 1)%Z, acc ++ [c])
  else (count, acc ++ [c]).
Proof. reflexivity. Qed.

(** While the count does not pass through [instance] the loop copies. *)
Lemma nth_steps_copy (s : pystr) : forall (count : Z) (acc : pystr),
  (instance <= count \/ count + count_matches test s < instance)%Z ->
  fold_left (nth_step test instance hit) s (count, acc) =
  ((count + count_matches test s)%Z, acc ++ s).
Proof.
  induction s as [|c s IH]; intros count acc H.
  - simpl; unfold count_matches; simpl; rewrite app_nil_r; f_equal; lia.
  - rewrite count_matches_cons in *.
    pose proof (count_matches_nonneg s) as Hs.
    cbn [fold_left]; rewrite nth_step_eq.
    destruct (test c).
    + destruct (Z.eqb_spec (count + 1) instance) as [E|E]; [lia|].
      rewrite IH by lia.
      f_equal; [lia | now rewrite <- app_assoc].
    + rewrite IH by lia.
      rewrite <- app_assoc; reflexivity.
Qed.

(** The character that brings the count to [instance] is replaced by
    [hit], and it alone. *)
Lemma nth_steps_hit (pre post : pystr) (c : codepoint) (count : Z) (acc : pystr) :
  test c = true ->
  (count + count_matches test pre = instance - 1)%Z ->
  fold_left (nth_step test instance hit) (pre ++ c :: post) (count, acc) =
  ((count + count_matches test (pre ++ c :: post))%Z, acc ++ pre ++ hit c ++ post).
Proof.
  intros Hc Hn.
  pose proof (count_matches_nonneg pre) as Hpre.
  rewrite fold_left_app, nth_steps_copy by lia.
  cbn [fold_left]; rewrite nth_step_eq, Hc.
  destruct (Z.eqb_spec (count + count_matches test pre + 1) instance) as [E|E]; [|lia].
  rewrite nth_steps_copy by lia.
  rewrite count_matches_app, count_matches_cons, Hc.
  f_equal; [lia | now rewrite <- !app_assoc].
Qed.

Lemma nth_loop_copy (s : pystr) :
  (instance <= 0 \/ count_matches test s < instance)%Z ->
  nth_loop test instance hit s = (count_matches test s, s).
Proof.
  intros H; unfold nth_loop; rewrite nth_steps_copy by lia; reflexivity.
Qed.

Lemma nth_loop_hit (pre post : pystr) (c : codepoint) :
  test c = true ->
  (count_matches test pre = instance - 1)%Z ->
  nth_loop test instance hit (pre ++ c :: post) =
  (count_matches test (pre ++ c :: post), pre ++ hit c ++ post).
Proof.
  intros Hc Hn; unfold nth_loop; rewrite nth_steps_hit by (auto; lia).
  reflexivity.
Qed.

End NthLoop.

(** ** The engine *)

Section EngineProperties.

Context {rt : PyRuntime}.

Lemma engine_test (case_insensitive : bool) (char : pystr) :
  (if case_insensitive then same_char_lower char else same_char char) =
  is_match case_insensitive char.
Proof. destruct case_insensitive; reflexivity. Qed.

Lemma apply_rules_app (word : pystr) (rs1 rs2 : list rule) (ci : bool) (s : pystr) :
  apply_rules word rs1 ci = Ok s ->
  apply_rules word (rs1 ++ rs2) ci = apply_rules s rs2 ci.
Proof.
  revert word; induction rs1 as [|r rs1 IH]; intros word H; simpl in *.
  - injection H as ->; reflexivity.
  - destruct (apply_rule ci word r); [auto | discriminate].
Qed.

Lemma apply_rules_one (word : pystr) (r : rule) (ci : bool) :
  apply_rules word [r] ci = apply_rule ci word r.
Proof. simpl; destruct (apply_rule ci word r); reflexivity. Qed.

Lemma firstn_prefix (pre post : pystr) : firstn (length pre) (pre ++ post) = pre.
Proof. induction pre as [|x pre IH]; simpl; [destruct post | rewrite IH]; reflexivity. Qed.

Lemma skipn_prefix (pre post : pystr) : skipn (length pre) (pre ++ post) = post.
Proof. induction pre as [|x pre IH]; simpl; auto. Qed.

(** The position rule at a place where indexing succeeds. *)
Lemma apply_position_at (op : operation) (p : Z) (pre post : pystr) (c : codepoint)
    (ci : bool) :
  (p <= Z.of_nat (length (pre ++ c :: post)))%Z ->
  list_index (length (pre ++ c :: post)) (p - 1) = Some (length pre) ->
  apply_rule ci (pre ++ c :: post) (CaseTransform op (Position p)) =
  Ok (pre ++ transform op [c] ++ post).
Proof.
  intros Hle Hidx; unfold apply_rule.
  apply Z.leb_le in Hle; rewrite Hle, Hidx.
  rewrite firstn_prefix.
  replace (S (length pre)) with (length (pre ++ [c]))
    by (rewrite length_app; simpl; lia).
  replace (pre ++ c :: post) with ((pre ++ [c]) ++ post) at 2
    by (rewrite <- app_assoc; reflexivity).
  rewrite skipn_prefix, skipn_prefix; reflexivity.
Qed.

Lemma split_at (s : pystr) (i : nat) :
  (i < length s)%nat ->
  exists pre c post, s = pre ++ c :: post /\ length pre = i.
Proof.
  revert i; induction s as [|x s IH]; intros i Hi; simpl in Hi; [lia|].
  destruct i as [|i].
  - exists [], x, s; auto.
  - destruct (IH i) as (pre & c & post & -> & Hlen); [lia|].
    exists (x :: pre), c, post; simpl; auto.
Qed.

(** *** C4: replacement of the nth instance *)

(** C4 (amended): for a Replace rule with instance Nth(n), n >= 1, the
    engine substitutes the replacement for exactly the nth character that
    matches [char], counting from the left (exact comparison, or comparison
    of the lowercased forms when matching is case-insensitive), leaves every
    other character unchanged, and returns the word unchanged when it has
    fewer than n matches.  On ["password"] the rule that replaces the second
    ['s'] by ["$"] gives ["pas$word"]. *)
Theorem replace_nth_instance (ci : bool) (char replacement : pystr) (n : Z)
    (word : pystr) :
  (1 <= n)%Z ->
  (forall (pre post : pystr) (c : codepoint),
      word = pre ++ c :: post ->
      is_match ci char c = true ->
      count_matches (is_match ci char) pre = (n - 1)%Z ->
      apply_rules word [Replace char (Nth n) replacement] ci =
      Ok (pre ++ replacement ++ post)) /\
  ((count_matches (is_match ci char) word < n)%Z ->
      apply_rules word [Replace char (Nth n) replacement] ci = Ok word) /\
  apply_rules (u "password") [Replace (u "s") (Nth 2) (u "$")] false =
  Ok (u "pas$word").
Proof.
  intros _; repeat split.
  - intros pre post c -> Hc Hn.
    rewrite apply_rules_one; unfold apply_rule.
    rewrite engine_test, nth_loop_hit by assumption; reflexivity.
  - intros Hn.
    rewrite apply_rules_one; unfold apply_rule.
    rewrite engine_test, nth_loop_copy by (right; assumption); reflexivity.
Qed.

(** *** C5: case transformation at a position *)

(** C5: for a CaseTransform rule with target Position(p), p >= 1, applied
    after the rules before it have run: when p is at most the length of the
    word at that point, exactly the character at the 1-based position p is
    replaced by its upper case for Upper and by its lower case for Lower,
    and the others are unchanged; when p exceeds that length the word is
    unchanged.  On ["password"], position 1 and Upper give ["Password"]; on
    ["PassWord"], position 5 and Lower give ["Password"]. *)
Theorem case_transform_position (op : operation) (p : Z) (word : pystr)
    (rules : list rule) (ci : bool) (s : pystr) :
  (1 <= p)%Z ->
  apply_rules word rules ci = Ok s ->
  ((p <= Z.of_nat (length s))%Z ->
      exists (pre post : pystr) (c : codepoint),
        s = pre ++ c :: post /\
        (Z.of_nat (length pre) + 1 = p)%Z /\
        apply_rules word (rules ++ [CaseTransform op (Position p)]) ci =
        Ok (pre ++
            match op with
            | Upper => str_upper [c]
            | Lower => str_lower [c]
            end ++ post)) /\
  ((Z.of_nat (length s) < p)%Z ->
      apply_rules word (rules ++ [CaseTransform op (Position p)]) ci = Ok s) /\
  apply_rules (u "password") [CaseTransform Upper (Position 1)] false =
  Ok (u "Password") /\
  apply_rules (u "PassWord") [CaseTransform Lower (Position 5)] false =
  Ok (u "Password").
Proof.
  intros Hp Hs; repeat split.
  - intros Hle.
    destruct (split_at s (Z.to_nat (p - 1))) as (pre & c & post & -> & Hlen); [lia|].
    exists pre, post, c; repeat split; [lia|].
    rewrite (apply_rules_app _ _ _ _ _ Hs); rewrite apply_rules_one.
    apply apply_position_at; [assumption|].
    unfold list_index.
    replace ((0 <=? p - 1)%Z && (p - 1 <? Z.of_nat (length (pre ++ c :: post)))%Z)
      with true by (symmetry; apply andb_true_iff; split; [apply Z.leb_le | apply Z.ltb_lt]; lia).
    rewrite Hlen; reflexivity.
  - intros Hlt.
    rewrite (apply_rules_app _ _ _ _ _ Hs); rewrite apply_rules_one; unfold apply_rule.
    replace (p <=? Z.of_nat (length s))%Z with false
      by (symmetry; apply Z.leb_gt; lia).
    reflexivity.
  - cbn; rewrite str_upper_ascii by reflexivity; reflexivity.
  - cbn; rewrite str_lower_ascii by reflexivity; reflexivity.
Qed.

(** *** C10: positions that are zero or negative *)

(** C10: for a CaseTransform rule with target Position(p) and a word of
    length L with 1 - L <= p <= 0, the character at the 1-based position
    L + p is replaced by its upper case for Upper and by its lower case for
    Lower, and the other characters are unchanged. *)
Theorem case_transform_position_from_end (op : operation) (p : Z)
    (pre post : pystr) (c : codepoint) (ci : bool) :
  let word := pre ++ c :: post in
  (1 - Z.of_nat (length word) <= p <= 0)%Z ->
  (Z.of_nat (length pre) + 1 = Z.of_nat (length word) + p)%Z ->
  apply_rules word [CaseTransform op (Position p)] ci =
  Ok (pre ++
      match op with
      | Upper => str_upper [c]
      | Lower => str_lower [c]
      end ++ post).
Proof.
  intros word Hp Hpos; subst word.
  rewrite apply_rules_one.
  change (match op with Upper => str_upper [c] | Lower => str_lower [c] end)
    with (transform op [c]).
  apply apply_position_at; [lia|].
  unfold list_index.
  replace ((0 <=? p - 1)%Z && (p - 1 <? Z.of_nat (length (pre ++ c :: post)))%Z)
    with false by (symmetry; apply andb_false_iff; left; apply Z.leb_gt; lia).
  replace ((- Z.of_nat (length (pre ++ c :: post)) <=? p - 1)%Z && (p - 1 <? 0)%Z)
    with true by (symmetry; apply andb_true_iff; split; [apply Z.leb_le | apply Z.ltb_lt]; lia).
  f_equal; lia.
Qed.

(** A position at or below minus the length of the word is passed by the
    guard of the position rule and then fails in the indexing. *)
Lemma position_below_range (op : operation) (p : Z) (word : pystr) (ci : bool) :
  (p <= - Z.of_nat (length word))%Z ->
  apply_rules word [CaseTransform op (Position p)] ci = Raise IndexError.
Proof.
  intros Hp; rewrite apply_rules_one; unfold apply_rule, list_index.
  replace (p <=? Z.of_nat (length word))%Z with true
    by (symmetry; apply Z.leb_le; lia).
  replace (0 <=? p - 1)%Z with false by (symmetry; apply Z.leb_gt; lia).
  replace (- Z.of_nat (length word) <=? p - 1)%Z with false
    by (symmetry; apply Z.leb_gt; lia).
  reflexivity.
Qed.

(** X10: with case-sensitive matching the engine returns a word for rules
    whose ordinals are positive; so it does with case-insensitive matching
    when the replacements for all instances are accepted templates. *)
Lemma apply_rules_returns (rules : list rule) (ci : bool) :
  Forall positive_ordinals rules ->
  (ci = true -> Forall template_accepted rules) ->
  forall word, exists s, apply_rules word rules ci = Ok s.
Proof.
  induction rules as [|r rules IH]; intros Hpos Htpl word; [eexists; reflexivity|].
  assert (Hr : exists s, apply_rule ci word r = Ok s).
  { destruct r as [char [|n] replacement | op [p | char n]]; cbn [apply_rule].
    - destruct ci; [|eexists; reflexivity].
      specialize (Htpl eq_refl); apply Forall_inv in Htpl; simpl in Htpl.
      unfold re_sub_ignorecase.
      destruct (parse_template TText replacement); [eexists; reflexivity | congruence].
    - eexists; reflexivity.
    - apply Forall_inv in Hpos; specialize (Hpos p eq_refl).
      destruct (Z.leb_spec p (Z.of_nat (length word))); [|eexists; reflexivity].
      unfold list_index.
      replace ((0 <=? p - 1)%Z && (p - 1 <? Z.of_nat (length word))%Z) with true
        by (symmetry; apply andb_true_iff; split; [apply Z.leb_le | apply Z.ltb_lt]; lia).
      eexists; reflexivity.
    - destruct char as [|x char].
      + eexists; reflexivity.
      + destruct (nth_loop _ _ _ _) as [count new_result].
        destruct (0 <? count)%Z; eexists; reflexivity. }
  destruct Hr as [s Hs]; cbn [apply_rules]; rewrite Hs.
  apply IH; [exact (Forall_inv_tail Hpos) |].
  intros Hci; exact (Forall_inv_tail (Htpl Hci)).
Qed.

(** *** C1: failures of the engine *)

(** C1: the fragment ["pos 0 upper"] parses to a rule, and the engine
    raises [IndexError] when it applies that rule to the empty word. *)
Theorem apply_rules_raises_on_parsed_rule (ci : bool) :
  parse_single_rule (u "pos 0 upper") = Parsed (CaseTransform Upper (Position 0)) /\
  apply_rules [] [CaseTransform Upper (Position 0)] ci = Raise IndexError.
Proof.
  split; [eval_parse | reflexivity].
Qed.

(** A replacement without backslash is a template of literals. *)
Lemma parse_template_plain (s : pystr) :
  existsb (N.eqb backslash) s = false ->
  parse_template TText s = Some (map TLiteral s).
Proof.
  induction s as [|c s IH]; [reflexivity|].
  cbn [existsb parse_template].
  intros H; apply orb_false_iff in H; destruct H as [Hc Hs].
  rewrite N.eqb_sym in Hc; rewrite Hc, (IH Hs); reflexivity.
Qed.

Lemma expand_template_plain (s matched : pystr) :
  expand_template (map TLiteral s) matched = s.
Proof.
  unfold expand_template; induction s as [|c s IH]; simpl; congruence.
Qed.

Lemma sub_from_ext (eqc : codepoint -> codepoint -> bool) (pat : pystr)
    (f g : pystr -> pystr) :
  (forall m, f m = g m) ->
  forall s skip, sub_from eqc pat f skip s = sub_from eqc pat g skip s.
Proof.
  intros Hfg; induction s as [|c s IH]; intros skip; simpl.
  - destruct skip, pat; auto.
  - destruct skip; [|apply IH].
    destruct (startswith eqc pat (c :: s)); [|rewrite IH; reflexivity].
    rewrite Hfg; destruct pat; rewrite IH; reflexivity.
Qed.

(** The replacement of all instances without regard to case inserts a
    replacement that has no backslash as it is. *)
Lemma re_sub_ignorecase_plain (char replacement s : pystr) :
  existsb (N.eqb backslash) replacement = false ->
  re_sub_ignorecase char replacement s =
  Ok (sub_from sre_ieq char (fun _ => replacement) 0 s).
Proof.
  intros H; unfold re_sub_ignorecase; rewrite (parse_template_plain _ H).
  f_equal; apply sub_from_ext; intros m; apply expand_template_plain.
Qed.

(** *** C2: the replacement of all instances without regard to case *)

(** C2: the fragment [a all \\], whose replacement is two backslashes,
    parses to a Replace rule for all instances; applied without regard to
    case to the word ["a"], the rule puts one backslash in the place of the
    match. *)
Theorem replace_all_ignorecase_reads_template :
  parse_single_rule (u "a all \\") =
    Parsed (Replace (u "a") All [backslash; backslash]) /\
  apply_rules (u "a") [Replace (u "a") All [backslash; backslash]] true =
    Ok [backslash].
Proof.
  split; [eval_parse|].
  rewrite apply_rules_one; unfold apply_rule, re_sub_ignorecase.
  cbn [parse_template]; cbn.
  rewrite sre_ieq_ascii by reflexivity; reflexivity.
Qed.

End EngineProperties.

(** ** The parser *)

Section ParserProperties.

Context {rt : PyRuntime}.

Lemma keyword_is_operation (s : pystr) (op : operation) :
  keyword s op -> is_operation s = true /\ normalize s = op.
Proof. intros []; split; reflexivity. Qed.

(** *** C3: the ordinals of parsed rules *)

(** C3 (amended): the ordinal of every rule that [parse_single_rule]
    returns (the position of a Position target, the number of an Nth or
    CharacterInstance instance) is the integer that [int] reads from the
    second token of the fragment, whatever its sign: the fragments
    ["pos 0 upper"], ["a -1 lower"] and ["a -2 b"] parse to rules with the
    ordinals 0, -1 and -2. *)
Theorem parsed_ordinal_is_second_token (rule_text : pystr) (r : rule) (n : Z) :
  (parse_single_rule rule_text = Parsed r ->
   rule_ordinal r = Some n ->
   py_int (nth 1 (py_split rule_text) []) = Some n) /\
  parse_single_rule (u "pos 0 upper") = Parsed (CaseTransform Upper (Position 0)) /\
  parse_single_rule (u "a -1 lower") =
    Parsed (CaseTransform Lower (Character (u "a") (-1))) /\
  parse_single_rule (u "a -2 b") = Parsed (Replace (u "a") (Nth (-2)) (u "b")).
Proof.
  split; [|repeat split; eval_parse].
  unfold parse_single_rule.
  set (second := nth 1 (py_split rule_text) []).
  repeat match goal with
  | |- context [if ?b then _ else _] => destruct b
  | |- context [match py_int ?x with _ => _ end] => destruct (py_int x) eqn:?
  end; intros [= <-]; simpl; congruence.
Qed.

(** *** C8: the character case transformation *)

(** C8: [parse_single_rule] returns for every fragment, and raises
    nothing: no part is read out of the list of the parts, and every
    [ValueError] of [int] is caught; what it returns is either a rule or
    no rule with a diagnostic; and for a fragment of three tokens whose
    first is not "pos" (whatever the case) and whose third is one of
    upper, u, lower, l (whatever the case): when the second token is "all"
    (whatever the case) no rule is produced, with the warning that 'all' is
    not supported; when the second token reads as the integer n the rule
    is the case transformation of the instance n of the first token, with
    the operation the keyword stands for.  ["z 1 upper"] gives the
    upper-casing of the first ['z'], ["z all upper"] gives no rule. *)
Theorem parse_character_case_transform :
  (forall rule_text,
      parse_single_rule_run rule_text = Returns (parse_single_rule rule_text)) /\
  (forall rule_text,
      (exists r, parse_single_rule rule_text = Parsed r) \/
      (exists w, parse_single_rule rule_text = Dropped w)) /\
  (forall rule_text char instance_str keyword_str op,
      py_split rule_text = [char; instance_str; keyword_str] ->
      str_lower char <> u "pos" ->
      keyword (str_lower keyword_str) op ->
      (str_lower instance_str = u "all" ->
         parse_single_rule rule_text = Dropped AllNotSupported) /\
      (forall n, py_int instance_str = Some n ->
         parse_single_rule rule_text =
         Parsed (CaseTransform op (Character char n)))) /\
  parse_single_rule (u "z 1 upper") =
    Parsed (CaseTransform Upper (Character (u "z") 1)) /\
  parse_single_rule (u "z all upper") = Dropped AllNotSupported.
Proof.
  split; [|split; [|split; [|split; eval_parse]]].
  - intros rule_text; unfold parse_single_rule_run, parse_single_rule.
    destruct (py_split rule_text) as [|first [|second [|third [|fourth rest]]]];
      try reflexivity;
      unfold parse_position_run, parse_character_run, parse_replace_run;
      cbn [length Nat.eqb Nat.leb andb and_run item nth_error nth run_bind];
      unfold int_run.
    + repeat match goal with
      | |- context [py_int ?x] => destruct (py_int x)
      | |- context [if ?b then _ else _] => destruct b
      end; reflexivity.
    + destruct (str_eqb (str_lower second) (u "all")); [reflexivity|].
      destruct (py_int second); reflexivity.
  - intros rule_text; destruct (parse_single_rule rule_text); eauto.
  - intros rule_text char instance_str keyword_str op Hsplit Hpos Hkey.
    apply keyword_is_operation in Hkey; destruct Hkey as [Hop Hnorm].
    unfold parse_single_rule; rewrite Hsplit.
    cbn [nth length Nat.eqb andb].
    rewrite (str_eqb_neq _ _ Hpos), Hop, Hnorm.
    split.
    + intros ->; rewrite str_eqb_refl; reflexivity.
    + intros n Hn.
      rewrite (str_eqb_neq _ _ (py_int_not_all _ _ Hn)), Hn; reflexivity.
Qed.

(** *** C9: tokens after the third *)

(** C9 (amended): for a fragment of four or more tokens the outcome is
    that of the replacement shape and depends on the first three tokens
    only: when the second token is "all" (whatever the case) or reads as an
    integer, the rule is a Replace whose replacement is exactly the third
    token; otherwise no rule is produced, with the warning of an invalid
    instance value. *)
Theorem parse_replace_extra_tokens (rule_text char instance replacement extra : pystr)
    (more : list pystr) :
  py_split rule_text = char :: instance :: replacement :: extra :: more ->
  (str_lower instance = u "all" ->
     parse_single_rule rule_text = Parsed (Replace char All replacement)) /\
  (forall n, py_int instance = Some n ->
     parse_single_rule rule_text = Parsed (Replace char (Nth n) replacement)) /\
  (str_lower instance <> u "all" -> py_int instance = None ->
     parse_single_rule rule_text = Dropped (InvalidInstance instance)).
Proof.
  intros Hsplit; unfold parse_single_rule; rewrite Hsplit.
  cbn [nth length Nat.eqb Nat.leb andb].
  repeat split.
  - intros ->; rewrite str_eqb_refl; reflexivity.
  - intros n Hn.
    rewrite (str_eqb_neq _ _ (py_int_not_all _ _ Hn)), Hn; reflexivity.
  - intros Hall Hn; rewrite (str_eqb_neq _ _ Hall), Hn; reflexivity.
Qed.

End ParserProperties.

(** * Further properties of the code *)

(** ** The engine *)

Lemma sub_from_one_char (eqc : codepoint -> codepoint -> bool) (ch : codepoint)
    (new s : pystr) :
  sub_from eqc [ch] (fun _ => new) 0 s =
  flat_map (fun c => if eqc ch c then new else [c]) s.
Proof.
  induction s as [|c s IH]; [reflexivity|].
  cbn [sub_from flat_map length]; rewrite startswith_cons, IH.
  cbn [startswith]; rewrite andb_true_r.
  destruct (eqc ch c); reflexivity.
Qed.

Lemma sub_from_absent (pat : pystr) (f : pystr -> pystr) (s : pystr) :
  occurs pat s = false -> sub_from N.eqb pat f 0 s = s.
Proof.
  induction s as [|c s IH]; intros H.
  - destruct pat; [discriminate H | reflexivity].
  - cbn [sub_from]; rewrite (occurs_head _ _ H), (IH (occurs_tail _ _ _ H)).
    reflexivity.
Qed.

Lemma parse_template_trailing_backslash (pre : pystr) :
  existsb (N.eqb backslash) pre = false ->
  parse_template TText (pre ++ [backslash]) = None.
Proof.
  induction pre as [|c pre IH]; [reflexivity|].
  cbn [existsb app parse_template].
  intros H; apply orb_false_iff in H; destruct H as [Hc Hpre].
  rewrite N.eqb_sym in Hc; rewrite Hc, (IH Hpre); reflexivity.
Qed.

Lemma str_eqb_length (a b : pystr) : str_eqb a b = true -> length a = length b.
Proof. intros H; apply str_eqb_eq in H; congruence. Qed.

Lemma count_matches_none (test : codepoint -> bool) (s : pystr) :
  (forall c, test c = false) -> count_matches test s = 0%Z.
Proof.
  intros H; unfold count_matches; induction s as [|c s IH]; [reflexivity|].
  simpl; rewrite H; exact IH.
Qed.

Section EngineFurther.

Context {rt : PyRuntime}.

(** X1: a ruleset in two parts is applied part after part: the second part
    works on the word the first part returns, and an exception of the first
    part leaves the loop before the second part runs. *)
Theorem apply_rules_compose (word : pystr) (rules1 rules2 : list rule) (ci : bool) :
  apply_rules word (rules1 ++ rules2) ci =
  match apply_rules word rules1 ci with
  | Ok s => apply_rules s rules2 ci
  | Raise e => Raise e
  end.
Proof.
  revert word; induction rules1 as [|r rules1 IH]; intros word; [reflexivity|].
  cbn [app apply_rules]; destruct (apply_rule ci word r); auto.
Qed.

(** X2: with case-sensitive matching, the replacement of all instances of
    a one-character [char] puts the replacement in the place of every
    character equal to it and keeps every other character, in order. *)
Theorem replace_all_one_char (ch : codepoint) (replacement word : pystr) :
  apply_rules word [Replace [ch] All replacement] false =
  Ok (flat_map (fun c => if (ch =? c)%N then replacement else [c]) word).
Proof.
  rewrite apply_rules_one; cbn [apply_rule]; unfold str_replace.
  rewrite sub_from_one_char; reflexivity.
Qed.

(** X3: with case-sensitive matching, the replacement of all instances of
    a [char] that does not occur in the word as a substring returns the word
    (a [char] of several characters is looked for as a substring). *)
Theorem replace_all_absent (char replacement word : pystr) :
  occurs char word = false ->
  apply_rules word [Replace char All replacement] false = Ok word.
Proof.
  intros H; rewrite apply_rules_one; cbn [apply_rule]; unfold str_replace.
  rewrite sub_from_absent by exact H; reflexivity.
Qed.

(** X4: with case-insensitive matching, the replacement of all instances
    of a one-character [char] by a replacement without backslash puts the
    replacement, as it is, in the place of every character that the pattern
    matches without regard to case, and keeps every other character. *)
Theorem replace_all_ignorecase_plain (ch : codepoint) (replacement word : pystr) :
  existsb (N.eqb backslash) replacement = false ->
  apply_rules word [Replace [ch] All replacement] true =
  Ok (flat_map (fun c => if sre_ieq ch c then replacement else [c]) word).
Proof.
  intros H; rewrite apply_rules_one; cbn [apply_rule].
  rewrite re_sub_ignorecase_plain by exact H.
  rewrite sub_from_one_char; reflexivity.
Qed.

(** X5: with case-insensitive matching, a rule for all instances whose
    replacement ends with a backslash, the only one in it, makes the engine
    raise the error of the template compiler, whatever the word and whether
    or not [char] occurs in it. *)
Theorem replace_all_ignorecase_trailing_backslash (char pre word : pystr) :
  existsb (N.eqb backslash) pre = false ->
  apply_rules word [Replace char All (pre ++ [backslash])] true =
  Raise TemplateError.
Proof.
  intros H; rewrite apply_rules_one; cbn [apply_rule]; unfold re_sub_ignorecase.
  rewrite parse_template_trailing_backslash by exact H; reflexivity.
Qed.

(** X6: for a CaseTransform rule on the instance n of a non-empty [char]:
    the nth character that matches [char], counting from the left (exact
    comparison, or comparison of the lowercased forms when matching is
    case-insensitive), is replaced by its upper case for Upper and by its
    lower case for Lower, and every other character is unchanged; a word
    with fewer than n matches is returned unchanged. *)
Theorem case_transform_character (op : operation) (ci : bool) (char : pystr) (n : Z)
    (word : pystr) :
  char <> [] ->
  (forall (pre post : pystr) (c : codepoint),
      word = pre ++ c :: post ->
      is_match ci char c = true ->
      count_matches (is_match ci char) pre = (n - 1)%Z ->
      apply_rules word [CaseTransform op (Character char n)] ci =
      Ok (pre ++
          match op with
          | Upper => str_upper [c]
          | Lower => str_lower [c]
          end ++ post)) /\
  ((count_matches (is_match ci char) word < n)%Z ->
      apply_rules word [CaseTransform op (Character char n)] ci = Ok word).
Proof.
  intros Hchar; destruct char as [|x char]; [congruence|]; split.
  - intros pre post c -> Hc Hn.
    rewrite apply_rules_one; cbn [apply_rule].
    rewrite engine_test, nth_loop_hit by assumption.
    rewrite count_matches_app, count_matches_cons, Hc.
    pose proof (count_matches_nonneg (is_match ci (x :: char)) pre).
    pose proof (count_matches_nonneg (is_match ci (x :: char)) post).
    replace (0 <? _)%Z with true by (symmetry; apply Z.ltb_lt; lia).
    reflexivity.
  - intros Hn.
    rewrite apply_rules_one; cbn [apply_rule].
    rewrite engine_test, nth_loop_copy by (right; exact Hn).
    destruct (0 <? _)%Z; reflexivity.
Qed.

(** X7: an instance number that is zero or negative never comes up in the
    count: a Replace rule and a CaseTransform rule with such an instance
    return every word unchanged. *)
Theorem nonpositive_instance_unchanged (ci : bool) (char replacement : pystr)
    (op : operation) (n : Z) (word : pystr) :
  (n <= 0)%Z ->
  apply_rules word [Replace char (Nth n) replacement] ci = Ok word /\
  apply_rules word [CaseTransform op (Character char n)] ci = Ok word.
Proof.
  intros Hn; split; rewrite apply_rules_one; cbn [apply_rule].
  - rewrite engine_test, nth_loop_copy by (left; exact Hn); reflexivity.
  - destruct char as [|x char]; [reflexivity|].
    rewrite engine_test, nth_loop_copy by (left; exact Hn).
    destruct (0 <? _)%Z; reflexivity.
Qed.

(** X8: with case-sensitive matching the rules on the nth instance compare
    [char] with one character of the word at a time: when [char] is not
    exactly one character long, a Replace rule on the nth instance and a
    CaseTransform rule on the nth instance return every word unchanged. *)
Theorem nth_instance_needs_one_char (char replacement : pystr) (op : operation)
    (n : Z) (word : pystr) :
  length char <> 1%nat ->
  apply_rules word [Replace char (Nth n) replacement] false = Ok word /\
  apply_rules word [CaseTransform op (Character char n)] false = Ok word.
Proof.
  intros Hlen.
  assert (Hnone : forall c, same_char char c = false).
  { intros c; unfold same_char; destruct (str_eqb [c] char) eqn:E; [|reflexivity].
    apply str_eqb_length in E; simpl in E; congruence. }
  assert (Hloop : forall hit, nth_loop (same_char char) n hit word = (0%Z, word)).
  { intros hit.
    destruct (Z_le_gt_dec n 0) as [Hn | Hn].
    - rewrite nth_loop_copy by (left; exact Hn).
      rewrite count_matches_none by exact Hnone; reflexivity.
    - rewrite nth_loop_copy
        by (right; rewrite count_matches_none by exact Hnone; lia).
      rewrite count_matches_none by exact Hnone; reflexivity. }
  split; rewrite apply_rules_one; cbn [apply_rule].
  - rewrite Hloop; reflexivity.
  - destruct char as [|x char]; [reflexivity|].
    rewrite Hloop; reflexivity.
Qed.

(** X9: a CaseTransform rule on a position raises [IndexError] exactly
    when the position is at most minus the length of the word; for every
    other position, zero and negative ones included, the engine returns a
    word. *)
Theorem position_raises_iff (op : operation) (p : Z) (word : pystr) (ci : bool) :
  (apply_rules word [CaseTransform op (Position p)] ci = Raise IndexError <->
   (p <= - Z.of_nat (length word))%Z) /\
  ((- Z.of_nat (length word) < p)%Z ->
   exists s, apply_rules word [CaseTransform op (Position p)] ci = Ok s).
Proof.
  split; [split; [|apply position_below_range]|];
    rewrite apply_rules_one; unfold apply_rule, list_index.
  - destruct (Z.leb_spec p (Z.of_nat (length word))); [|discriminate].
    destruct (Z.leb_spec 0 (p - 1)), (Z.ltb_spec (p - 1) (Z.of_nat (length word)));
      cbn [andb]; try discriminate; try lia.
    destruct (Z.leb_spec (- Z.of_nat (length word)) (p - 1)), (Z.ltb_spec (p - 1) 0);
      cbn [andb]; try discriminate; lia.
  - intros Hp.
    destruct (Z.leb_spec p (Z.of_nat (length word))); [|eexists; reflexivity].
    destruct (Z.leb_spec 0 (p - 1)), (Z.ltb_spec (p - 1) (Z.of_nat (length word)));
      cbn [andb]; try (eexists; reflexivity); try lia.
    destruct (Z.leb_spec (- Z.of_nat (length word)) (p - 1)), (Z.ltb_spec (p - 1) 0);
      cbn [andb]; try (eexists; reflexivity); lia.
Qed.

End EngineFurther.

(** ** The parser *)

Lemma add_word_tokens (w : pystr) (ws : list pystr) :
  existsb isspace w = false ->
  Forall (fun x => is_token x = true) ws ->
  Forall (fun x => is_token x = true) (add_word w ws).
Proof.
  intros Hw Hws; destruct w as [|c w]; [exact Hws|].
  constructor; [|exact Hws].
  unfold is_token; rewrite Hw; reflexivity.
Qed.

Lemma split_words_tokens (s : pystr) :
  existsb isspace (fst (split_words s)) = false /\
  Forall (fun x => is_token x = true) (snd (split_words s)).
Proof.
  induction s as [|c s [IHw IHws]]; [split; [reflexivity | constructor]|].
  cbn [split_words]; destruct (split_words s) as [w ws]; cbn [fst snd] in *.
  destruct (isspace c) eqn:Hc; cbn [fst snd].
  - split; [reflexivity | apply add_word_tokens; assumption].
  - split; [cbn [existsb]; rewrite Hc; exact IHw | exact IHws].
Qed.

(** What [str.split()] returns are tokens. *)
Lemma py_split_tokens (s : pystr) :
  Forall (fun x => is_token x = true) (py_split s).
Proof.
  unfold py_split; pose proof (split_words_tokens s) as [Hw Hws].
  destruct (split_words s) as [w ws]; apply add_word_tokens; assumption.
Qed.

Lemma py_split_blank (s : pystr) : forallb isspace s = true -> py_split s = [].
Proof.
  intros H; unfold py_split.
  assert (E : split_words s = ([], [])).
  { induction s as [|c s IH]; [reflexivity|].
    cbn [forallb] in H; apply andb_true_iff in H; destruct H as [Hc Hs].
    cbn [split_words]; rewrite (IH Hs), Hc; reflexivity. }
  rewrite E; reflexivity.
Qed.

Section ParserFurther.

Context {rt : PyRuntime}.

(** X11: a fragment with fewer than three tokens gives no rule, with the
    warning of an invalid rule format that quotes the fragment; so does a
    fragment that is empty or holds whitespace only. *)
Theorem parse_too_few_tokens (rule_text : pystr) :
  ((length (py_split rule_text) < 3)%nat ->
     parse_single_rule rule_text = Dropped (InvalidFormat rule_text)) /\
  (forallb isspace rule_text = true ->
     parse_single_rule rule_text = Dropped (InvalidFormat rule_text)).
Proof.
  assert (H : (length (py_split rule_text) < 3)%nat ->
    parse_single_rule rule_text = Dropped (InvalidFormat rule_text)).
  { intros Hlen; unfold parse_single_rule.
    replace (length (py_split rule_text) =? 3)%nat with false
      by (symmetry; apply Nat.eqb_neq; lia).
    replace (3 <=? length (py_split rule_text))%nat with false
      by (symmetry; apply Nat.leb_gt; lia).
    reflexivity. }
  split; [exact H|].
  intros Hblank; apply H; rewrite py_split_blank by exact Hblank; simpl; lia.
Qed.

(** X12: a fragment of three tokens whose first token is "pos", whatever
    the case, is read as a case transformation at a position and as nothing
    else: a second token that [int] rejects gives the warning of an invalid
    position (whatever the third token); otherwise a third token that is not
    one of upper, u, lower, l gives the warning of an invalid operation,
    which quotes the token in lower case; otherwise the rule is the case
    transformation at the position read. *)
Theorem parse_position_shape (rule_text first second third : pystr) :
  py_split rule_text = [first; second; third] ->
  str_lower first = u "pos" ->
  (py_int second = None ->
     parse_single_rule rule_text = Dropped (InvalidPosition second)) /\
  (forall n, py_int second = Some n ->
     is_operation (str_lower third) = false ->
     parse_single_rule rule_text = Dropped (InvalidOperation (str_lower third))) /\
  (forall n op, py_int second = Some n ->
     keyword (str_lower third) op ->
     parse_single_rule rule_text = Parsed (CaseTransform op (Position n))).
Proof.
  intros Hsplit Hpos; unfold parse_single_rule; rewrite Hsplit.
  cbn [nth length Nat.eqb andb]; rewrite Hpos, str_eqb_refl.
  repeat split.
  - intros ->; reflexivity.
  - intros n -> ->; reflexivity.
  - intros n op -> Hkey.
    apply keyword_is_operation in Hkey; destruct Hkey as [-> ->]; reflexivity.
Qed.

(** X13: a fragment of exactly three tokens whose first token is not
    "pos" and whose third token is not one of upper, u, lower, l (whatever
    the case) is read as a replacement of the first token by the third: of
    all instances when the second token is "all" (whatever the case), of the
    instance n when [int] reads the second token as n, and with the warning
    of an invalid instance value otherwise. *)
Theorem parse_replace_three_tokens (rule_text char instance replacement : pystr) :
  py_split rule_text = [char; instance; replacement] ->
  str_lower char <> u "pos" ->
  is_operation (str_lower replacement) = false ->
  (str_lower instance = u "all" ->
     parse_single_rule rule_text = Parsed (Replace char All replacement)) /\
  (forall n, py_int instance = Some n ->
     parse_single_rule rule_text = Parsed (Replace char (Nth n) replacement)) /\
  (str_lower instance <> u "all" -> py_int instance = None ->
     parse_single_rule rule_text = Dropped (InvalidInstance instance)).
Proof.
  intros Hsplit Hpos Hop; unfold parse_single_rule; rewrite Hsplit.
  cbn [nth length Nat.eqb Nat.leb andb].
  rewrite (str_eqb_neq _ _ Hpos), Hop.
  repeat split.
  - intros ->; rewrite str_eqb_refl; reflexivity.
  - intros n Hn.
    rewrite (str_eqb_neq _ _ (py_int_not_all _ _ Hn)), Hn; reflexivity.
  - intros Hall Hn; rewrite (str_eqb_neq _ _ Hall), Hn; reflexivity.
Qed.

(** X14: the [char] and the [replacement] of every rule that the parser
    returns are tokens of the fragment: they are not empty and hold no
    whitespace (no fragment gives a rule with an empty replacement). *)
Theorem parsed_rule_tokens (rule_text : pystr) (r : rule) :
  parse_single_rule rule_text = Parsed r ->
  Forall (fun w => In w (py_split rule_text) /\ is_token w = true) (rule_tokens r).
Proof.
  intros Hparse.
  assert (Hin : Forall (fun w => In w (py_split rule_text)) (rule_tokens r)).
  { revert Hparse; unfold parse_single_rule.
    destruct (py_split rule_text) as [|t1 [|t2 [|t3 rest]]];
      cbn [nth length Nat.eqb Nat.leb andb]; try discriminate.
    repeat match goal with
    | |- context [if ?b then _ else _] => destruct b
    | |- context [match py_int ?x with _ => _ end] => destruct (py_int x)
    end; intros [= <-]; cbn [rule_tokens];
      repeat (apply Forall_cons || apply Forall_nil); simpl; auto 6. }
  pose proof (py_split_tokens rule_text) as Htok.
  rewrite Forall_forall in *.
  intros w Hw; split; auto.
Qed.

End ParserFurther.

(** ** The splitter *)

Lemma pipe_free_no_escape (f : pystr) :
  existsb (N.eqb pipe) f = false -> occurs [backslash; pipe; pipe] f = false.
Proof.
  induction f as [|c f IH]; [reflexivity|].
  cbn [existsb]; intros H; apply orb_false_iff in H; destruct H as [Hc Hf].
  cbn [occurs]; rewrite startswith_cons, (IH Hf).
  destruct f as [|d f]; [rewrite andb_false_r; reflexivity|].
  cbn [existsb] in Hf; apply orb_false_iff in Hf; destruct Hf as [Hd _].
  rewrite startswith_cons, Hd, andb_false_r; reflexivity.
Qed.

Lemma unescape_pipe_free (f : pystr) :
  existsb (N.eqb pipe) f = false -> unescape f = f.
Proof.
  intros H; unfold unescape, str_replace.
  apply sub_from_absent, pipe_free_no_escape, H.
Qed.

Lemma re_split_pipe_free (f : pystr) : forall escaped,
  existsb (N.eqb pipe) f = false -> re_split escaped f = [f].
Proof.
  induction f as [|c f IH]; intros escaped H; [reflexivity|].
  cbn [existsb] in H; apply orb_false_iff in H; destruct H as [Hc Hf].
  destruct f as [|c1 f2]; [reflexivity|].
  rewrite re_split_eq, (N.eqb_sym c pipe), Hc, (IH _ Hf); reflexivity.
Qed.

Lemma re_split_fragment (f : pystr) : forall escaped rest,
  existsb (N.eqb pipe) f = false ->
  last f 0%N <> backslash ->
  (f = [] -> escaped = false) ->
  re_split escaped (f ++ pipe :: pipe :: rest) = f :: re_split false rest.
Proof.
  induction f as [|c f IH]; intros escaped rest Hpipe Hlast Hesc.
  - rewrite (Hesc eq_refl); cbn [app]; rewrite re_split_eq, !N.eqb_refl.
    reflexivity.
  - cbn [existsb] in Hpipe; apply orb_false_iff in Hpipe.
    destruct Hpipe as [Hc Hf].
    cbn [app]; destruct (f ++ pipe :: pipe :: rest) as [|c1 s2] eqn:E.
    { destruct f; discriminate E. }
    rewrite re_split_eq, (N.eqb_sym c pipe), Hc; cbn [andb].
    rewrite <- E, IH; [reflexivity | exact Hf | |].
    + destruct f as [|d f]; [discriminate | exact Hlast].
    + intros ->; apply N.eqb_neq; exact Hlast.
Qed.

Lemma re_split_join (fs : list pystr) :
  fs <> [] ->
  Forall (fun f => existsb (N.eqb pipe) f = false /\ last f 0%N <> backslash) fs ->
  re_split false (join [pipe; pipe] fs) = fs.
Proof.
  induction fs as [|f fs IH]; [congruence|]; intros _ Hall.
  inversion Hall as [|? ? [Hpipe Hlast] Hrest]; subst.
  destruct fs as [|g fs]; [apply re_split_pipe_free; exact Hpipe|].
  change (join [pipe; pipe] (f :: g :: fs))
    with (f ++ pipe :: pipe :: join [pipe; pipe] (g :: fs)).
  rewrite re_split_fragment, IH; auto; discriminate.
Qed.

(** X15: whatever the delimiter argument, the splitter returns at least
    one fragment, as many fragments as for any other delimiter, and every
    fragment is trimmed of leading and trailing whitespace. *)
Theorem split_fragments_any_delimiter (text delimiter : pystr) :
  split_escaped_delimiters text delimiter <> [] /\
  (forall delimiter',
      length (split_escaped_delimiters text delimiter) =
      length (split_escaped_delimiters text delimiter')) /\
  (forall fragment,
      In fragment (split_escaped_delimiters text delimiter) ->
      trimmed fragment = true).
Proof.
  unfold split_escaped_delimiters; repeat split.
  - intros H; apply map_eq_nil in H; exact (re_split_not_nil _ _ H).
  - intros delimiter'; rewrite !length_map; reflexivity.
  - intros fragment Hin; apply in_map_iff in Hin.
    destruct Hin as (part & <- & _); apply strip_trimmed.
Qed.

(** X16: splitting undoes joining: for fragments that hold no ['|'] and do
    not end with a backslash, the line made of the fragments with ["||"]
    between them is split into the fragments again, each one trimmed. *)
Theorem split_join_fragments (fragments : list pystr) :
  fragments <> [] ->
  Forall (fun f => existsb (N.eqb pipe) f = false /\ last f 0%N <> backslash)
    fragments ->
  split_escaped_delimiters (join (u "||") fragments) (u "||") =
  map strip fragments.
Proof.
  intros Hne Hall; unfold split_escaped_delimiters.
  change (u "||") with [pipe; pipe].
  rewrite re_split_join by assumption.
  apply map_ext_in; intros f Hf.
  rewrite Forall_forall in Hall; destruct (Hall f Hf) as [Hpipe _].
  change (str_replace [backslash; pipe; pipe] [pipe; pipe] f) with (unescape f).
  rewrite unescape_pipe_free by exact Hpipe; reflexivity.
Qed.

(** ** Reading the rules *)

Section ReadRules.

Context {rt : PyRuntime}.

Lemma parse_rule_parts_count (rule_parts : list pystr) :
  (length (fst (parse_rule_parts rule_parts)) +
   length (snd (parse_rule_parts rule_parts)) = length rule_parts)%nat.
Proof.
  induction rule_parts as [|t ts IH]; [reflexivity|].
  cbn [parse_rule_parts]; destruct (parse_rule_parts ts) as [rs ws].
  destruct (parse_single_rule t); cbn [fst snd length] in *; lia.
Qed.

Lemma read_rules_lines_app (lines1 lines2 : list pystr) :
  read_rules_lines (lines1 ++ lines2) =
  (fst (read_rules_lines lines1) ++ fst (read_rules_lines lines2),
   snd (read_rules_lines lines1) ++ snd (read_rules_lines lines2)).
Proof.
  induction lines1 as [|l lines1 IH].
  - cbn; destruct (read_rules_lines lines2); reflexivity.
  - cbn [app read_rules_lines]; rewrite IH.
    destruct (read_rules_line l) as [r1 w1].
    destruct (read_rules_lines lines1) as [r2 w2].
    destruct (read_rules_lines lines2) as [r3 w3].
    cbn [fst snd]; rewrite !app_assoc; reflexivity.
Qed.

Lemma read_rules_line_shape (line : pystr) :
  Forall (fun ruleset => ruleset <> []) (fst (read_rules_line line)) /\
  (length (fst (read_rules_line line)) <= 1)%nat.
Proof.
  unfold read_rules_line.
  destruct (is_skipped (strip line)); [split; [constructor | simpl; lia]|].
  destruct (parse_rule_parts _) as [[|r rs] ws]; cbn [fst].
  - split; [constructor | simpl; lia].
  - split; [repeat constructor; discriminate | simpl; lia].
Qed.

(** X17: no ruleset that [read_rules] returns is empty (a line whose
    fragments are all invalid gives no ruleset), and there are at most as
    many rulesets as lines in the file. *)
Theorem read_rules_rulesets (lines : list pystr) (rulesets : list (list rule))
    (warnings : list warning) :
  read_rules (Some lines) = Rulesets rulesets warnings ->
  Forall (fun ruleset => ruleset <> []) rulesets /\
  (length rulesets <= length lines)%nat.
Proof.
  unfold read_rules.
  destruct (read_rules_lines lines) as [rss ws] eqn:E; intros [= <- <-].
  revert rss ws E; induction lines as [|l lines IH]; intros rss ws E.
  - injection E as <- <-; split; [constructor | reflexivity].
  - cbn [read_rules_lines] in E.
    pose proof (read_rules_line_shape l) as [Hne Hlen].
    destruct (read_rules_line l) as [r1 w1].
    destruct (read_rules_lines lines) as [r2 w2].
    destruct (IH r2 w2 eq_refl) as [IHne IHlen].
    injection E as <- <-; cbn [fst] in *; split.
    + apply Forall_app; split; assumption.
    + rewrite length_app; simpl; lia.
Qed.

(** X18: a line that is blank, or whose first character that is not
    whitespace is ['#'], has no effect on what [read_rules] returns or
    prints, wherever it stands in the file and whatever follows the
    ['#']. *)
Theorem read_rules_skips_line (lines1 lines2 : list pystr) (line : pystr) :
  is_skipped (strip line) = true ->
  read_rules (Some (lines1 ++ line :: lines2)) = read_rules (Some (lines1 ++ lines2)).
Proof.
  intros Hskip; unfold read_rules.
  rewrite !read_rules_lines_app.
  cbn [read_rules_lines]; unfold read_rules_line at 1 2; rewrite Hskip.
  destruct (read_rules_lines lines2) as [r2 w2]; reflexivity.
Qed.

(** X19: no fragment is lost without a trace: the number of rules in the
    rulesets that [read_rules] returns plus the number of warnings it
    prints is the number of fragments of the lines that are not skipped. *)
Theorem read_rules_accounts_for_fragments (lines : list pystr)
    (rulesets : list (list rule)) (warnings : list warning) :
  read_rules (Some lines) = Rulesets rulesets warnings ->
  (length (concat rulesets) + length warnings =
   length (flat_map (fun line => split_escaped_delimiters (strip line) (u "||"))
             (filter (fun line => negb (is_skipped (strip line))) lines)))%nat.
Proof.
  unfold read_rules.
  destruct (read_rules_lines lines) as [rss ws] eqn:E; intros [= <- <-].
  revert rss ws E; induction lines as [|l lines IH]; intros rss ws E.
  - injection E as <- <-; reflexivity.
  - cbn [read_rules_lines] in E.
    assert (Hline : (length (concat (fst (read_rules_line l))) +
                     length (snd (read_rules_line l)) =
                     if is_skipped (strip l) then 0
                     else length (split_escaped_delimiters (strip l) (u "||")))%nat).
    { unfold read_rules_line.
      destruct (is_skipped (strip l)); [reflexivity|].
      pose proof (parse_rule_parts_count
                    (split_escaped_delimiters (strip l) (u "||"))) as Hc.
      destruct (parse_rule_parts _) as [[|r rs] ws0]; cbn [fst snd] in *.
      - exact Hc.
      - cbn [concat]; rewrite app_nil_r; exact Hc. }
    destruct (read_rules_line l) as [r1 w1].
    destruct (read_rules_lines lines) as [r2 w2].
    specialize (IH r2 w2 eq_refl).
    injection E as <- <-; cbn [fst snd] in *.
    rewrite concat_app, !length_app.
    cbn [filter]; destruct (is_skipped (strip l)); cbn [negb].
    + lia.
    + cbn [flat_map]; rewrite length_app; lia.
Qed.

End ReadRules.

(** ** Descriptions *)

Lemma int_digits_acc (d : Decimal.uint) : forall acc,
  int_digits (Z.pos acc) true (uint_codes d) = Some (Z.pos (Pos.of_uint_acc d acc)).
Proof.
  induction d; intros acc; [reflexivity | ..];
    cbn [uint_codes int_digits Pos.of_uint_acc];
    match goal with
    | |- context [is_digit ?c] => change (is_digit c) with true
    end; cbv iota;
    rewrite <- IHd; f_equal; unfold digit_value; lia.
Qed.

Lemma int_digits_of_uint (d : Decimal.uint) : forall after_digit,
  d <> Decimal.Nil \/ after_digit = true ->
  int_digits 0 after_digit (uint_codes d) = Some (Z.of_N (Pos.of_uint d)).
Proof.
  induction d; intros after_digit H;
    [destruct H as [H | ->]; [congruence | reflexivity] | ..];
    cbn [uint_codes int_digits Pos.of_uint];
    match goal with
    | |- context [is_digit ?c] => change (is_digit c) with true
    end; cbv iota.
  1: exact (IHd true (or_intror eq_refl)).
  all: match goal with
       | |- int_digits ?a true _ = Some (Z.of_N (N.pos (Pos.of_uint_acc _ ?k))) =>
           change a with (Z.pos k); rewrite int_digits_acc; reflexivity
       end.
Qed.

Lemma uint_codes_digits (d : Decimal.uint) : forallb is_digit (uint_codes d) = true.
Proof. induction d; [reflexivity | ..]; cbn [uint_codes forallb]; exact IHd. Qed.

Lemma int_codes_chars (n : Z) :
  forallb (fun c => is_digit c || (c =? 45)%N) (int_codes n) = true.
Proof.
  assert (H : forall d, forallb (fun c => is_digit c || (c =? 45)%N) (uint_codes d) = true).
  { intros d; pose proof (uint_codes_digits d) as Hd.
    rewrite forallb_forall in *; intros c Hc; rewrite (Hd c Hc); reflexivity. }
  destruct n; cbn [int_codes forallb]; rewrite ?H; reflexivity.
Qed.

Lemma int_codes_ascii (n : Z) : forallb is_ascii (int_codes n) = true.
Proof.
  pose proof (int_codes_chars n) as H; rewrite forallb_forall in *.
  intros c Hc; specialize (H c Hc); unfold is_ascii, is_digit in *.
  apply N.ltb_lt; apply orb_true_iff in H; destruct H as [H | H].
  - apply andb_true_iff in H; destruct H as [_ H]; apply N.leb_le in H; lia.
  - apply N.eqb_eq in H; lia.
Qed.

Lemma int_codes_no_space (n : Z) : existsb isspace (int_codes n) = false.
Proof.
  pose proof (int_codes_chars n) as H; rewrite forallb_forall in H.
  destruct (existsb isspace (int_codes n)) eqn:E; [|reflexivity].
  apply existsb_exists in E; destruct E as (c & Hc & Hsp).
  specialize (H c Hc); unfold is_digit, isspace in *.
  apply orb_true_iff in H; destruct H as [H | H].
  - apply andb_true_iff in H; destruct H as [H1 H2].
    apply N.leb_le in H1, H2.
    repeat (apply orb_true_iff in Hsp; destruct Hsp as [Hsp | Hsp]);
      repeat (apply andb_true_iff in Hsp; destruct Hsp as [? Hsp]);
      repeat match goal with
      | H : (_ <=? _)%N = true |- _ => apply N.leb_le in H
      | H : (_ =? _)%N = true |- _ => apply N.eqb_eq in H
      end; lia.
  - apply N.eqb_eq in H; subst c; discriminate Hsp.
Qed.

Lemma existsb_rev_eq (f : codepoint -> bool) (l : pystr) :
  existsb f (rev l) = existsb f l.
Proof.
  induction l as [|c l IH]; [reflexivity|].
  cbn [rev existsb]; rewrite existsb_app, IH; cbn [existsb].
  rewrite orb_false_r; apply orb_comm.
Qed.

Lemma strip_no_space (s : pystr) : existsb isspace s = false -> strip s = s.
Proof.
  assert (Hl : forall t, existsb isspace t = false -> lstrip t = t).
  { intros [|c t]; [reflexivity|]; cbn [existsb lstrip]; intros H.
    apply orb_false_iff in H; destruct H as [-> _]; reflexivity. }
  intros H; unfold strip, rstrip; rewrite (Hl s H), Hl, rev_involutive; auto.
  rewrite existsb_rev_eq; exact H.
Qed.

Lemma int_strip_clean (s : pystr) :
  existsb is_int_space s = false -> int_strip s = s.
Proof.
  assert (Hl : forall t, existsb is_int_space t = false -> skip_int_space t = t).
  { intros [|c t]; [reflexivity|]; cbn [existsb skip_int_space]; intros H.
    apply orb_false_iff in H; destruct H as [-> _]; reflexivity. }
  intros H; unfold int_strip; rewrite (Hl s H), Hl, rev_involutive; auto.
  rewrite existsb_rev_eq; exact H.
Qed.

Lemma int_codes_no_int_space (n : Z) : existsb is_int_space (int_codes n) = false.
Proof.
  pose proof (int_codes_chars n) as H; rewrite forallb_forall in H.
  destruct (existsb is_int_space (int_codes n)) eqn:E; [|reflexivity].
  apply existsb_exists in E; destruct E as (c & Hc & Hsp).
  specialize (H c Hc); unfold is_digit, is_int_space in *.
  apply orb_true_iff in H; destruct H as [H | H].
  - apply andb_true_iff in H; destruct H as [H1 H2].
    apply N.leb_le in H1, H2.
    apply orb_true_iff in Hsp; destruct Hsp as [Hsp | Hsp].
    + apply andb_true_iff in Hsp; destruct Hsp as [_ Hsp].
      apply N.leb_le in Hsp; lia.
    + apply N.eqb_eq in Hsp; lia.
  - apply N.eqb_eq in H; subst c; discriminate Hsp.
Qed.

(** [int] reads the numeral of [n] as [n]. *)
Lemma int_ascii_int_codes (n : Z) : int_ascii (int_codes n) = Some n.
Proof.
  unfold int_ascii; rewrite int_strip_clean by apply int_codes_no_int_space.
  destruct n as [|p|p]; [reflexivity | |]; cbn [int_codes].
  - pose proof (int_digits_of_uint (Pos.to_uint p) false
                  (or_introl (Unsigned.to_uint_nonnil p))) as H.
    rewrite Unsigned.of_to in H; cbn [Z.of_N] in H; rewrite <- H.
    destruct (Pos.to_uint p); reflexivity.
  - rewrite (int_digits_of_uint (Pos.to_uint p) false
               (or_introl (Unsigned.to_uint_nonnil p))).
    rewrite Unsigned.of_to; reflexivity.
Qed.

Lemma split_words_token (t s : pystr) :
  existsb isspace t = false ->
  split_words (t ++ s) = (t ++ fst (split_words s), snd (split_words s)).
Proof.
  induction t as [|c t IH]; intros H.
  - cbn [app]; destruct (split_words s); reflexivity.
  - cbn [existsb] in H; apply orb_false_iff in H; destruct H as [Hc Ht].
    cbn [app split_words]; rewrite (IH Ht), Hc; reflexivity.
Qed.

Lemma is_token_inv (t : pystr) :
  is_token t = true -> t <> [] /\ existsb isspace t = false.
Proof.
  unfold is_token; intros H; apply andb_true_iff in H; destruct H as [H1 H2].
  apply negb_true_iff in H1, H2; split; [|exact H2].
  intros ->; discriminate H1.
Qed.

Lemma py_split_token (t : pystr) : is_token t = true -> py_split t = [t].
Proof.
  intros H; apply is_token_inv in H; destruct H as [Hne Hsp].
  unfold py_split; rewrite <- (app_nil_r t) at 1.
  rewrite split_words_token by exact Hsp; cbn [split_words fst snd].
  rewrite app_nil_r; destruct t; [congruence | reflexivity].
Qed.

Lemma py_split_cons_token (t s : pystr) :
  is_token t = true -> py_split (t ++ 32%N :: s) = t :: py_split s.
Proof.
  intros H; apply is_token_inv in H; destruct H as [Hne Hsp].
  unfold py_split; rewrite split_words_token by exact Hsp.
  cbn [split_words]; destruct (split_words s) as [w ws].
  change (isspace 32%N) with true; cbv iota; cbn [fst snd].
  rewrite app_nil_r; destruct t; [congruence | reflexivity].
Qed.

Lemma py_split_three (t1 t2 t3 : pystr) :
  is_token t1 = true -> is_token t2 = true -> is_token t3 = true ->
  py_split (t1 ++ u " " ++ t2 ++ u " " ++ t3) = [t1; t2; t3].
Proof.
  intros H1 H2 H3; change (u " ") with [32%N]; cbn [app].
  rewrite !py_split_cons_token, py_split_token by assumption; reflexivity.
Qed.

Lemma int_codes_token (n : Z) : is_token (int_codes n) = true.
Proof.
  unfold is_token; rewrite int_codes_no_space.
  pose proof (int_ascii_int_codes n) as H.
  destruct (int_codes n); [discriminate H | reflexivity].
Qed.

Lemma int_codes_abs_length (n : Z) :
  (length (int_codes (Z.abs n)) <= length (int_codes n))%nat.
Proof. destruct n; simpl; lia. Qed.

Lemma int_codes_pipe_free (n : Z) : existsb (N.eqb pipe) (int_codes n) = false.
Proof.
  pose proof (int_codes_chars n) as H; rewrite forallb_forall in H.
  destruct (existsb (N.eqb pipe) (int_codes n)) eqn:E; [|reflexivity].
  apply existsb_exists in E; destruct E as (c & Hc & Hp).
  apply N.eqb_eq in Hp; subst c; specialize (H pipe Hc); discriminate H.
Qed.

Section Descriptions.

Context {rt : PyRuntime}.

Lemma py_int_int_codes (n : Z) :
  (length (int_codes n) <= int_max_str_digits)%nat ->
  py_str_int n = Some (int_codes n) /\ py_int (int_codes n) = Some n.
Proof.
  intros Hlen; split.
  - unfold py_str_int.
    pose proof (int_codes_abs_length n) as Habs.
    replace (_ <=? _)%nat with true by (symmetry; apply Nat.leb_le; lia).
    reflexivity.
  - rewrite py_int_ascii by (apply int_codes_ascii || exact Hlen).
    apply int_ascii_int_codes.
Qed.

Lemma operation_name_reads (op : operation) :
  is_token (operation_name op) = true /\
  str_lower (operation_name op) = operation_name op /\
  is_operation (operation_name op) = true /\
  normalize (operation_name op) = op.
Proof.
  destruct op; repeat split; try reflexivity;
    rewrite str_lower_ascii by reflexivity; reflexivity.
Qed.

(** The description of a rule is made of three tokens with a space
    between them, and is parsed as the rule. *)
Lemma describe_rule_shape (r : rule) :
  Forall (fun w => is_token w = true) (rule_tokens r) ->
  plain_rule r ->
  (forall n, rule_ordinal r = Some n ->
     (length (int_codes n) <= int_max_str_digits)%nat) ->
  exists t1 t2 t3,
    describe_rule r = Some (t1 ++ u " " ++ t2 ++ u " " ++ t3) /\
    parse_single_rule (t1 ++ u " " ++ t2 ++ u " " ++ t3) = Parsed r /\
    (is_token t1 = true /\ is_token t2 = true /\ is_token t3 = true) /\
    (Forall (fun w => existsb (N.eqb pipe) w = false) (rule_tokens r) ->
     existsb (N.eqb pipe) t1 = false /\ existsb (N.eqb pipe) t2 = false /\
     existsb (N.eqb pipe) t3 = false).
Proof.
  intros Htok Hplain Hlen.
  destruct r as [char [|n] replacement | op [p | char n]];
    cbn [rule_tokens plain_rule rule_ordinal describe_rule] in *.
  - (* all instances *)
    inversion Htok as [|? ? Hchar Htok']; subst.
    inversion Htok' as [|? ? Hrepl _]; subst.
    destruct Hplain as [Hpos Hop].
    exists char, (u "all"), replacement; split; [reflexivity|]; split.
    + unfold parse_single_rule; rewrite py_split_three by (assumption || reflexivity).
      cbn [nth length Nat.eqb Nat.leb andb].
      rewrite (str_eqb_neq _ _ Hpos), Hop.
      rewrite (str_lower_ascii (u "all")) by reflexivity; reflexivity.
    + split; [auto|].
      intros Hp; inversion Hp as [|? ? Hp1 Hp']; subst.
      inversion Hp' as [|? ? Hp2 _]; subst; auto.
  - (* the nth instance *)
    inversion Htok as [|? ? Hchar Htok']; subst.
    inversion Htok' as [|? ? Hrepl _]; subst.
    destruct Hplain as [Hpos Hop].
    destruct (py_int_int_codes n (Hlen n eq_refl)) as [Hstr Hint].
    rewrite Hstr.
    exists char, (int_codes n), replacement; split; [reflexivity|]; split.
    + unfold parse_single_rule;
        rewrite py_split_three by (assumption || apply int_codes_token).
      cbn [nth length Nat.eqb Nat.leb andb].
      rewrite (str_eqb_neq _ _ Hpos), Hop.
      rewrite (str_eqb_neq _ _ (py_int_not_all _ _ Hint)), Hint; reflexivity.
    + split; [pose proof (int_codes_token n); auto|].
      intros Hp; inversion Hp as [|? ? Hp1 Hp']; subst.
      inversion Hp' as [|? ? Hp2 _]; subst.
      pose proof (int_codes_pipe_free n); auto.
  - (* a position *)
    destruct (py_int_int_codes p (Hlen p eq_refl)) as [Hstr Hint].
    destruct (operation_name_reads op) as (Hname & Hlow & Hisop & Hnorm).
    rewrite Hstr.
    exists (u "pos"), (int_codes p), (operation_name op).
    split; [reflexivity|]; split.
    + unfold parse_single_rule;
        rewrite py_split_three
          by (assumption || apply int_codes_token || reflexivity).
      cbn [nth length Nat.eqb Nat.leb andb].
      rewrite (str_lower_ascii (u "pos")) by reflexivity.
      change (str_eqb (map ascii_lower (u "pos")) (u "pos")) with true; cbv iota.
      rewrite Hint, Hlow, Hisop, Hnorm; reflexivity.
    + split; [pose proof (int_codes_token p); auto|].
      intros _; pose proof (int_codes_pipe_free p).
      destruct op; auto.
  - (* the nth instance of a character *)
    inversion Htok as [|? ? Hchar _]; subst.
    destruct (py_int_int_codes n (Hlen n eq_refl)) as [Hstr Hint].
    destruct (operation_name_reads op) as (Hname & Hlow & Hisop & Hnorm).
    rewrite Hstr.
    exists char, (int_codes n), (operation_name op).
    split; [reflexivity|]; split.
    + unfold parse_single_rule;
        rewrite py_split_three by (assumption || apply int_codes_token).
      cbn [nth length Nat.eqb Nat.leb andb].
      rewrite (str_eqb_neq _ _ Hplain), Hlow, Hisop, Hnorm.
      rewrite (str_eqb_neq _ _ (py_int_not_all _ _ Hint)), Hint; reflexivity.
    + split; [pose proof (int_codes_token n); auto|].
      intros Hp; inversion Hp as [|? ? Hp1 _]; subst.
      pose proof (int_codes_pipe_free n).
      destruct op; auto.
Qed.

(** X20: the description that [main] prints for a rule reads back as the
    rule: for a rule whose [char] and [replacement] are tokens, whose
    [char] is not "pos" and whose replacement is not the keyword of an
    operation (whatever the case), and whose ordinal has a numeral within
    the limit of [int], the description is defined and [parse_single_rule]
    returns the rule for it. *)
Theorem describe_rule_reads_back (r : rule) :
  Forall (fun w => is_token w = true) (rule_tokens r) ->
  plain_rule r ->
  (forall n, rule_ordinal r = Some n ->
     (length (int_codes n) <= int_max_str_digits)%nat) ->
  exists text,
    describe_rule r = Some text /\ parse_single_rule text = Parsed r.
Proof.
  intros Htok Hplain Hlen.
  destruct (describe_rule_shape r Htok Hplain Hlen)
    as (t1 & t2 & t3 & Hdesc & Hparse & _).
  exists (t1 ++ u " " ++ t2 ++ u " " ++ t3); split; assumption.
Qed.

End Descriptions.

(** ** Descriptions read as rule lines *)

Lemma lstrip_spaces (pre s : pystr) :
  forallb isspace pre = true -> lstrip (pre ++ s) = lstrip s.
Proof.
  induction pre as [|c pre IH]; [reflexivity|].
  cbn [forallb app lstrip]; intros H; apply andb_true_iff in H.
  destruct H as [-> Hpre]; exact (IH Hpre).
Qed.

Lemma lstrip_starts_clean (s : pystr) : starts_clean s = true -> lstrip s = s.
Proof.
  destruct s as [|c s]; [reflexivity|]; cbn [starts_clean lstrip].
  intros H; apply negb_true_iff in H; rewrite H; reflexivity.
Qed.

Lemma forallb_rev_eq (f : codepoint -> bool) (l : pystr) :
  forallb f (rev l) = forallb f l.
Proof.
  induction l as [|c l IH]; [reflexivity|].
  cbn [rev forallb]; rewrite forallb_app, IH; cbn [forallb].
  rewrite andb_true_r; apply andb_comm.
Qed.

(** Whitespace around a trimmed string is what [strip] removes. *)
Lemma strip_padded (pre d post : pystr) :
  forallb isspace pre = true -> forallb isspace post = true ->
  starts_clean d = true -> starts_clean (rev d) = true ->
  strip (pre ++ d ++ post) = d.
Proof.
  intros Hpre Hpost Hd Hrd; unfold strip; rewrite lstrip_spaces by exact Hpre.
  destruct d as [|c d].
  - cbn [app]; rewrite <- (app_nil_r post), lstrip_spaces by exact Hpost.
    reflexivity.
  - rewrite lstrip_starts_clean by exact Hd.
    unfold rstrip; rewrite rev_app_distr.
    rewrite lstrip_spaces by (rewrite forallb_rev_eq; exact Hpost).
    rewrite lstrip_starts_clean by exact Hrd.
    apply rev_involutive.
Qed.

Lemma spaces_pipe_free (pre : pystr) :
  forallb isspace pre = true -> existsb (N.eqb pipe) pre = false.
Proof.
  induction pre as [|c pre IH]; [reflexivity|].
  cbn [forallb existsb]; intros H; apply andb_true_iff in H.
  destruct H as [Hc Hpre]; rewrite (IH Hpre), orb_false_r.
  destruct (N.eqb_spec pipe c) as [<- | _]; [discriminate Hc | reflexivity].
Qed.

Lemma pipe_free_app (a b : pystr) :
  existsb (N.eqb pipe) a = false -> existsb (N.eqb pipe) b = false ->
  existsb (N.eqb pipe) (a ++ b) = false.
Proof.
  intros Ha Hb; rewrite existsb_app; apply orb_false_iff; split; assumption.
Qed.

Lemma split_padded_join (ds : list pystr) : forall pre,
  ds <> [] ->
  forallb isspace pre = true ->
  Forall clean_fragment ds ->
  split_escaped_delimiters (pre ++ join (u " || ") ds) (u "||") = ds.
Proof.
  induction ds as [|d ds IH]; [congruence|]; intros pre _ Hpre Hall.
  inversion Hall as [|? ? (Hpipe & Hne & Hd & Hrd) Hrest]; subst.
  assert (Hstrip : forall post, forallb isspace post = true ->
    strip (str_replace (backslash :: u "||") (u "||") (pre ++ d ++ post)) = d).
  { intros post Hpost.
    change (str_replace (backslash :: u "||") (u "||") (pre ++ d ++ post))
      with (unescape (pre ++ d ++ post)).
    rewrite unescape_pipe_free, strip_padded; auto.
    repeat apply pipe_free_app; auto using spaces_pipe_free. }
  destruct ds as [|d2 ds].
  - cbn [join]; unfold split_escaped_delimiters.
    rewrite re_split_pipe_free
      by (apply pipe_free_app; auto using spaces_pipe_free).
    cbn [map]; rewrite <- (app_nil_r d) at 1; rewrite Hstrip by reflexivity.
    reflexivity.
  - change (pre ++ join (u " || ") (d :: d2 :: ds))
      with (pre ++ d ++ [32%N] ++ pipe :: pipe :: [32%N] ++ join (u " || ") (d2 :: ds)).
    replace (pre ++ d ++ [32%N] ++ pipe :: pipe :: [32%N] ++ join (u " || ") (d2 :: ds))
      with ((pre ++ d ++ [32%N]) ++ pipe :: pipe :: [32%N] ++ join (u " || ") (d2 :: ds))
      by (rewrite <- !app_assoc; reflexivity).
    unfold split_escaped_delimiters.
    rewrite re_split_fragment.
    + cbn [map]; rewrite Hstrip by reflexivity; f_equal.
      apply (IH [32%N]); [discriminate | reflexivity | exact Hrest].
    + repeat apply pipe_free_app; auto using spaces_pipe_free.
    + rewrite app_assoc, last_last; discriminate.
    + intros E; apply app_eq_nil in E; destruct E as [_ E].
      apply app_eq_nil in E; destruct E as [_ E]; discriminate E.
Qed.

Lemma starts_clean_app (a b : pystr) :
  a <> [] -> starts_clean (a ++ b) = starts_clean a.
Proof. destruct a; [congruence | reflexivity]. Qed.

Lemma join_clean (ds : list pystr) :
  ds <> [] -> Forall clean_fragment ds ->
  join (u " || ") ds <> [] /\
  starts_clean (join (u " || ") ds) = true /\
  starts_clean (rev (join (u " || ") ds)) = true.
Proof.
  induction ds as [|d ds IH]; [congruence|]; intros _ Hall.
  inversion Hall as [|? ? (Hpipe & Hne & Hd & Hrd) Hrest]; subst.
  destruct ds as [|d2 ds]; [cbn [join]; auto|].
  destruct IH as (Hjne & _ & Hjr); [discriminate | exact Hrest|].
  change (join (u " || ") (d :: d2 :: ds))
    with (d ++ u " || " ++ join (u " || ") (d2 :: ds)).
  repeat split.
  - destruct d; [congruence | discriminate].
  - rewrite starts_clean_app by exact Hne; exact Hd.
  - rewrite !rev_app_distr, <- app_assoc, starts_clean_app; [exact Hjr|].
    intros E; apply (f_equal (@rev codepoint)) in E.
    rewrite rev_involutive in E; exact (Hjne E).
Qed.

Lemma strip_clean (s : pystr) :
  starts_clean s = true -> starts_clean (rev s) = true -> strip s = s.
Proof.
  intros H1 H2; rewrite <- (app_nil_r s) at 1.
  exact (strip_padded [] s [] eq_refl eq_refl H1 H2).
Qed.

Lemma three_tokens_clean (t1 t2 t3 : pystr) :
  is_token t1 = true -> is_token t2 = true -> is_token t3 = true ->
  existsb (N.eqb pipe) t1 = false -> existsb (N.eqb pipe) t2 = false ->
  existsb (N.eqb pipe) t3 = false ->
  clean_fragment (t1 ++ u " " ++ t2 ++ u " " ++ t3).
Proof.
  intros H1 H2 H3 P1 P2 P3.
  apply is_token_inv in H1, H3; destruct H1 as [N1 S1], H3 as [N3 S3].
  repeat split.
  - repeat apply pipe_free_app; auto.
  - destruct t1; [congruence | discriminate].
  - rewrite starts_clean_app by exact N1.
    destruct t1 as [|c t1]; [congruence|].
    cbn [existsb] in S1; apply orb_false_iff in S1; destruct S1 as [Hc _].
    cbn [starts_clean]; rewrite Hc; reflexivity.
  - rewrite !app_assoc, rev_app_distr, starts_clean_app.
    + destruct (rev t3) as [|c r] eqn:E.
      * apply (f_equal (@rev codepoint)) in E; rewrite rev_involutive in E.
        contradiction.
      * rewrite <- existsb_rev_eq, E in S3.
        cbn [existsb] in S3; apply orb_false_iff in S3; destruct S3 as [Hc _].
        cbn [starts_clean]; rewrite Hc; reflexivity.
    + intros E; apply (f_equal (@rev codepoint)) in E.
      rewrite rev_involutive in E; contradiction.
Qed.

Section DescriptionLines.

Context {rt : PyRuntime}.

Lemma describe_rules_fragments (rules : list rule) :
  Forall line_rule rules ->
  exists ds,
    describe_rules rules = Some ds /\
    Forall clean_fragment ds /\
    parse_rule_parts ds = (rules, []) /\
    length ds = length rules.
Proof.
  induction rules as [|r rules IH]; intros Hall.
  - exists []; repeat split; constructor.
  - inversion Hall as [|? ? (Htok & Hplain & Hlen) Hrest]; subst.
    destruct (IH Hrest) as (ds & Hds & Hclean & Hparse & Hlength).
    assert (Htok1 : Forall (fun w => is_token w = true) (rule_tokens r))
      by (eapply Forall_impl; [|exact Htok]; cbv beta; tauto).
    assert (Htok2 : Forall (fun w => existsb (N.eqb pipe) w = false) (rule_tokens r))
      by (eapply Forall_impl; [|exact Htok]; cbv beta; tauto).
    destruct (describe_rule_shape r Htok1 Hplain Hlen)
      as (t1 & t2 & t3 & Hdesc & Hp & (H1 & H2 & H3) & Hpipe).
    destruct (Hpipe Htok2) as (P1 & P2 & P3).
    exists ((t1 ++ u " " ++ t2 ++ u " " ++ t3) :: ds).
    cbn [describe_rules parse_rule_parts length].
    rewrite Hdesc, Hds, Hparse, Hp, Hlength; repeat split.
    constructor; [apply three_tokens_clean; assumption | exact Hclean].
Qed.

(** X23: the description that [main] prints for a ruleset, put as the one
    line of a rules file, is read back by [read_rules] as that ruleset,
    without any warning: this holds for a non-empty ruleset whose rules
    have tokens without ['|'] for [char] and [replacement], a [char] that
    is not "pos", a replacement that is not the keyword of an operation,
    and an ordinal within the limit of [int], when the description does not
    start with ['#']. *)
Theorem ruleset_description_reads_back (rules : list rule) :
  rules <> [] ->
  Forall line_rule rules ->
  (forall d, ruleset_description rules = Some d ->
     startswith N.eqb (u "#") d = false) ->
  exists description,
    ruleset_description rules = Some description /\
    read_rules (Some [description]) = Rulesets [rules] [].
Proof.
  intros Hne Hall Hhash.
  destruct (describe_rules_fragments rules Hall)
    as (ds & Hds & Hclean & Hparse & Hlength).
  assert (Hdne : ds <> []) by (destruct ds, rules; simpl in *; congruence).
  destruct (join_clean ds Hdne Hclean) as (Hjne & Hj & Hjr).
  assert (Hdesc : ruleset_description rules = Some (join (u " || ") ds))
    by (unfold ruleset_description; rewrite Hds; reflexivity).
  exists (join (u " || ") ds); split; [exact Hdesc|].
  unfold read_rules; cbn [read_rules_lines]; unfold read_rules_line.
  rewrite strip_clean by assumption.
  unfold is_skipped; rewrite (Hhash _ Hdesc), orb_false_r.
  rewrite (str_eqb_neq _ _ Hjne).
  pose proof (split_padded_join ds [] Hdne eq_refl Hclean) as Hsplit.
  cbn [app] in Hsplit; rewrite Hsplit, Hparse.
  destruct rules; [congruence | reflexivity].
Qed.

End DescriptionLines.

(** ** The rulesets typed in *)

Section Interactive.

Context {rt : PyRuntime}.

(** X24: the two ways of giving the rules agree: lines that are trimmed,
    that are neither blank nor comments and that are not "done" give, typed
    in and followed by "done" (whatever the case), the rulesets and the
    warnings that [read_rules] gives for a file of these lines; what is
    typed after "done" is not read. *)
Theorem interactive_rulesets_as_file (lines : list pystr) (done : pystr)
    (rest : list pystr) :
  Forall (fun line => strip line = line /\ is_skipped line = false /\
                      str_lower line <> u "done") lines ->
  str_lower done = u "done" ->
  match read_rules (Some lines) with
  | Rulesets rulesets warnings =>
      interactive_rulesets (lines ++ done :: rest) = Entered rulesets warnings
  | ExitNotFound => False
  end.
Proof.
  intros Hall Hdone; unfold read_rules.
  induction lines as [|l lines IH].
  - cbn [app read_rules_lines interactive_rulesets].
    rewrite Hdone, str_eqb_refl; reflexivity.
  - inversion Hall as [|? ? (Hstrip & Hskip & Hnot) Hrest]; subst.
    specialize (IH Hrest).
    cbn [app read_rules_lines interactive_rulesets].
    unfold read_rules_line; rewrite Hstrip, Hskip, (str_eqb_neq _ _ Hnot).
    destruct (parse_rule_parts (split_escaped_delimiters l (u "||"))) as [rs ws].
    destruct (read_rules_lines lines) as [rss wss].
    rewrite IH; destruct rs; reflexivity.
Qed.

(** X25: typing in is not reading a file for blank lines: a line of
    whitespace only, which [read_rules] skips, gives when typed in the
    warning of an invalid rule format for the empty fragment, and no
    ruleset. *)
Theorem interactive_blank_input (blank : pystr) (inputs : list pystr) :
  forallb isspace blank = true ->
  str_lower blank <> u "done" ->
  interactive_rulesets (blank :: inputs) =
  match interactive_rulesets inputs with
  | Entered rulesets warnings => Entered rulesets (InvalidFormat [] :: warnings)
  | EOFError warnings => EOFError (InvalidFormat [] :: warnings)
  end.
Proof.
  intros Hblank Hnot.
  assert (Hsplit : split_escaped_delimiters blank (u "||") = [[]]).
  { unfold split_escaped_delimiters.
    rewrite re_split_pipe_free by (apply spaces_pipe_free; exact Hblank).
    cbn [map].
    change (str_replace (backslash :: u "||") (u "||") blank) with (unescape blank).
    rewrite unescape_pipe_free by (apply spaces_pipe_free; exact Hblank).
    pose proof (strip_padded blank [] [] Hblank eq_refl eq_refl eq_refl) as Hs.
    cbn [app] in Hs; rewrite app_nil_r in Hs; rewrite Hs; reflexivity. }
  cbn [interactive_rulesets].
  rewrite (str_eqb_neq _ _ Hnot), Hsplit.
  cbn [parse_rule_parts].
  change (parse_single_rule []) with (Dropped (InvalidFormat [])).
  destruct (interactive_rulesets inputs); reflexivity.
Qed.

End Interactive.

(** ** The generation of the words *)

Section Generation.

Context {rt : PyRuntime}.

Lemma apply_ruleset_records (words : list pystr) (rules : list rule) (ci : bool)
    (index : Z) (description : pystr) : forall generated,
  apply_ruleset words rules ci index description = Ok generated ->
  length generated = length words /\
  forall j word, nth_error words j = Some word ->
    exists new_word,
      apply_rules word rules ci = Ok new_word /\
      nth_error generated j =
      Some {| original := word; transformed := new_word;
              ruleset_index := index; ruleset := description |}.
Proof.
  induction words as [|w words IH]; intros generated H.
  - injection H as <-; split; [reflexivity|].
    intros [|j] word Hj; discriminate Hj.
  - cbn [apply_ruleset] in H.
    destruct (apply_rules w rules ci) as [new_word|e] eqn:Hw; [|discriminate H].
    destruct (apply_ruleset words rules ci index description) as [g|e];
      [|discriminate H].
    injection H as <-; destruct (IH g eq_refl) as [Hlen Hnth].
    split; [simpl; congruence|].
    intros [|j] word Hj; cbn [nth_error] in *.
    + injection Hj as <-; exists new_word; auto.
    + exact (Hnth j word Hj).
Qed.

Lemma generate_from_records (rulesets : list (list rule)) (words : list pystr)
    (ci : bool) : forall index generated descriptions,
  generate_from index rulesets words ci = Generated generated descriptions ->
  length generated = (length rulesets * length words)%nat /\
  forall i j rules word,
    nth_error rulesets i = Some rules -> nth_error words j = Some word ->
    exists new_word description,
      apply_rules word rules ci = Ok new_word /\
      ruleset_description rules = Some description /\
      nth_error descriptions i = Some description /\
      nth_error generated (i * length words + j) =
      Some {| original := word; transformed := new_word;
              ruleset_index := index + Z.of_nat i; ruleset := description |}.
Proof.
  induction rulesets as [|rs rulesets IH]; intros index generated descriptions H.
  - injection H as <- <-; split; [reflexivity|].
    intros [|i] j rules word Hi; discriminate Hi.
  - cbn [generate_from] in H.
    destruct (ruleset_description rs) as [d|] eqn:Hd; [|discriminate H].
    destruct (apply_ruleset words rs ci index d) as [g|e] eqn:Hg; [|discriminate H].
    destruct (generate_from (index + 1) rulesets words ci) as [more ds|e] eqn:Hmore;
      [|discriminate H].
    injection H as <- <-.
    destruct (apply_ruleset_records _ _ _ _ _ _ Hg) as [Hglen Hgnth].
    destruct (IH _ _ _ Hmore) as [Hmlen Hmnth].
    split; [rewrite length_app; cbn [length Nat.mul]; lia|].
    intros [|i] j rules word Hi Hj; cbn [nth_error] in Hi.
    + injection Hi as <-.
      destruct (Hgnth j word Hj) as (new_word & Hnew & Hrec).
      exists new_word, d; repeat split; auto.
      assert (Hlt : (j < length words)%nat)
        by (apply nth_error_Some; congruence).
      rewrite nth_error_app1 by (cbn [Nat.mul Nat.add]; lia).
      cbn [Nat.mul Nat.add Z.of_nat]; rewrite Z.add_0_r; exact Hrec.
    + destruct (Hmnth i j rules word Hi Hj) as (new_word & description & Hnew & Hdesc & Hdi & Hrec).
      exists new_word, description; repeat split; auto.
      rewrite nth_error_app2 by (rewrite Hglen; cbn [Nat.mul]; lia).
      replace (S i * length words + j - length g)%nat
        with (i * length words + j)%nat by (rewrite Hglen; cbn [Nat.mul]; lia).
      rewrite Hrec; do 2 f_equal; lia.
Qed.

(** X21: when the loop of [main] ends, it has made one output per
    ruleset and word, rulesets first: with n words, the output of the
    ruleset number i + 1 for the word number j + 1 is the element i * n + j
    of the list; it holds the word, the word that [apply_rules] returns for
    it, the index i + 1 and the description of the ruleset. *)
Theorem generate_records (rulesets : list (list rule)) (words : list pystr)
    (ci : bool) (generated : list generated_word) (descriptions : list pystr) :
  generate rulesets words ci = Generated generated descriptions ->
  length generated = (length rulesets * length words)%nat /\
  forall i j rules word,
    nth_error rulesets i = Some rules -> nth_error words j = Some word ->
    exists new_word description,
      apply_rules word rules ci = Ok new_word /\
      ruleset_description rules = Some description /\
      nth_error descriptions i = Some description /\
      nth_error generated (i * length words + j) =
      Some {| original := word; transformed := new_word;
              ruleset_index := Z.of_nat i + 1; ruleset := description |}.
Proof.
  intros H; destruct (generate_from_records _ _ _ _ _ _ H) as [Hlen Hnth].
  split; [exact Hlen|].
  intros i j rules word Hi Hj.
  destruct (Hnth i j rules word Hi Hj) as (new_word & description & H1 & H2 & H3 & H4).
  exists new_word, description; repeat split; auto.
  rewrite H4; do 2 f_equal; lia.
Qed.

Lemma apply_ruleset_returns (words : list pystr) (rules : list rule) (ci : bool)
    (index : Z) (description : pystr) :
  (forall word, In word words -> exists new_word, apply_rules word rules ci = Ok new_word) ->
  exists generated, apply_ruleset words rules ci index description = Ok generated.
Proof.
  induction words as [|w words IH]; intros H; [eexists; reflexivity|].
  destruct (H w (or_introl eq_refl)) as [new_word Hw].
  destruct IH as [g Hg]; [intros word Hin; apply H; right; exact Hin|].
  cbn [apply_ruleset]; rewrite Hw, Hg; eexists; reflexivity.
Qed.

(** X22: the loop of [main] ends, with its outputs, when every ruleset has
    a description and [apply_rules] returns a word for every ruleset and
    word; when it ends, all of them did (X21), so that one rule that raises
    on one word leaves no output at all. *)
Theorem generate_returns (rulesets : list (list rule)) (words : list pystr) (ci : bool) :
  (forall rules, In rules rulesets -> ruleset_description rules <> None) ->
  (forall rules word, In rules rulesets -> In word words ->
     exists new_word, apply_rules word rules ci = Ok new_word) ->
  exists generated descriptions,
    generate rulesets words ci = Generated generated descriptions.
Proof.
  unfold generate; generalize 1%Z as index.
  induction rulesets as [|rs rulesets IH]; intros index Hdesc Happly;
    [do 2 eexists; reflexivity|].
  cbn [generate_from].
  destruct (ruleset_description rs) as [d|] eqn:Hd;
    [|exfalso; exact (Hdesc rs (or_introl eq_refl) Hd)].
  destruct (apply_ruleset_returns words rs ci index d) as [g Hg].
  { intros word Hin; apply Happly; [left; reflexivity | exact Hin]. }
  rewrite Hg.
  destruct (IH (index + 1)%Z) as (more & ds & Hmore).
  { intros rules Hin; apply Hdesc; right; exact Hin. }
  { intros rules word Hin Hw; apply Happly; [right; exact Hin | exact Hw]. }
  rewrite Hmore; do 2 eexists; reflexivity.
Qed.

End Generation.

(** ** The claims on ASCII input *)

#[local] Existing Instance ascii_runtime.

(** The second ['s'] of ["password"] is its fourth character: the result
    is not ["pa$sword"]. *)
Lemma replace_nth_instance_password :
  apply_rules (u "password") [Replace (u "s") (Nth 2) (u "$")] false <>
  Ok (u "pa$sword").
Proof. discriminate. Qed.

Lemma replace_nth_instance_witness :
  (1 <= 2)%Z /\
  apply_rules (u "password") [Replace (u "s") (Nth 2) (u "$")] false =
  Ok (u "pas" ++ u "$" ++ u "word").
Proof.
  split; [lia|].
  apply (proj1 (replace_nth_instance false (u "s") (u "$") 2 (u "password")
                  ltac:(lia)) (u "pas") (u "word") 115%N);
    reflexivity.
Defined.

Lemma case_transform_position_witness :
  (1 <= 2)%Z /\
  parse_single_rule (u "p 1 xy") = Parsed (Replace (u "p") (Nth 1) (u "xy")) /\
  apply_rules (u "password") [Replace (u "p") (Nth 1) (u "xy")] false =
  Ok (u "xyassword") /\
  apply_rules (u "password")
    ([Replace (u "p") (Nth 1) (u "xy")] ++ [CaseTransform Upper (Position 2)])
    false =
  Ok (u "xYassword").
Proof.
  split; [lia|]; split; [reflexivity|]; split; [reflexivity|].
  destruct (proj1 (case_transform_position Upper 2 (u "password")
                     [Replace (u "p") (Nth 1) (u "xy")] false (u "xyassword")
                     ltac:(lia) eq_refl) ltac:(simpl; lia))
    as (pre & post & c & Hs & Hlen & Hres).
  rewrite Hres; clear Hres.
  destruct pre as [|a [|b pre]]; simpl in Hlen; try lia.
  vm_compute in Hs; injection Hs as <- <- <-; reflexivity.
Defined.

Lemma case_transform_position_from_end_witness :
  apply_rules (u "password") [CaseTransform Upper (Position 0)] false =
  Ok (u "passworD").
Proof.
  exact (case_transform_position_from_end Upper 0 (u "passwor") [] 100%N false
           ltac:(simpl; lia) ltac:(simpl; lia)).
Defined.

(** ["pos 0 upper"] parses to a rule whose position is not positive. *)
Lemma parsed_ordinal_not_positive :
  parse_single_rule (u "pos 0 upper") = Parsed (CaseTransform Upper (Position 0)) /\
  ~ positive_ordinals (CaseTransform Upper (Position 0)).
Proof.
  split; [reflexivity|].
  intros H; specialize (H 0%Z eq_refl); lia.
Qed.

Lemma parsed_ordinal_is_second_token_witness :
  py_int (nth 1 (py_split (u "s 2 $")) []) = Some 2%Z.
Proof.
  apply (proj1 (parsed_ordinal_is_second_token (u "s 2 $")
                  (Replace (u "s") (Nth 2) (u "$")) 2));
    reflexivity.
Defined.

Lemma parse_character_case_transform_witness :
  parse_single_rule (u "a 2 L") = Parsed (CaseTransform Lower (Character (u "a") 2)).
Proof.
  refine (proj2 (proj1 (proj2 (proj2 (parse_character_case_transform
                                        (rt := ascii_runtime))))
                   (u "a 2 L") (u "a") (u "2") (u "L") Lower
                   eq_refl _ keyword_l) 2%Z eq_refl).
  intros H; vm_compute in H; discriminate H.
Defined.

(** A fragment of four tokens whose second token is neither "all" nor an
    integer gives no rule. *)
Lemma parse_four_tokens_no_rule :
  py_split (u "a b c d") = [u "a"; u "b"; u "c"; u "d"] /\
  parse_single_rule (u "a b c d") = Dropped (InvalidInstance (u "b")).
Proof. split; reflexivity. Qed.

Lemma parse_replace_extra_tokens_witness :
  parse_single_rule (u "o 1 0 zero") = Parsed (Replace (u "o") (Nth 1) (u "0")).
Proof.
  apply (proj1 (proj2 (parse_replace_extra_tokens (u "o 1 0 zero")
                         (u "o") (u "1") (u "0") (u "zero") [] eq_refl)) 1%Z);
    reflexivity.
Defined.

(** After an escaped delimiter a further ['|'] makes the splitter split
    inside it: the escaping backslash stays and no fragment holds the
    delimiter as text. *)
Lemma split_after_escaped_delimiter :
  split_escaped_delimiters (u "a \||| b") (u "||") = [u "a \|"; u "b"] /\
  split_by_scan (u "a \||| b") = [u "a ||| b"] /\
  forall fragment,
    In fragment (split_escaped_delimiters (u "a \||| b") (u "||")) ->
    occurs (u "||") fragment = false.
Proof.
  split; [reflexivity|]; split; [reflexivity|].
  intros fragment [<- | [<- | []]]; reflexivity.
Qed.

Lemma split_escaped_delimiters_default_witness :
  split_escaped_delimiters (u "o 1 0 || \ e all 3") (u "||") =
  [u "o 1 0"; u "\ e all 3"].
Proof.
  rewrite (proj1 split_escaped_delimiters_default (u "o 1 0 || \ e all 3"));
    reflexivity.
Defined.

(** ** The further properties on ASCII input *)

Lemma replace_all_absent_witness :
  apply_rules (u "password") [Replace (u "sw") All (u "!")] false =
  Ok (u "pas!ord") /\
  apply_rules (u "password") [Replace (u "ws") All (u "!")] false =
  Ok (u "password").
Proof.
  split; [reflexivity|].
  exact (replace_all_absent (u "ws") (u "!") (u "password") eq_refl).
Defined.

Lemma replace_all_ignorecase_plain_witness :
  apply_rules (u "Pop") [Replace (u "p") All (u "@@")] true = Ok (u "@@o@@").
Proof.
  exact (replace_all_ignorecase_plain 112%N (u "@@") (u "Pop") eq_refl).
Defined.

Lemma replace_all_ignorecase_trailing_backslash_witness :
  apply_rules (u "word") [Replace (u "z") All (u "x" ++ [backslash])] true =
  Raise TemplateError.
Proof.
  exact (replace_all_ignorecase_trailing_backslash (u "z") (u "x") (u "word")
           eq_refl).
Defined.

Lemma case_transform_character_witness :
  apply_rules (u "banana") [CaseTransform Upper (Character (u "a") 2)] false =
  Ok (u "banAna").
Proof.
  refine (proj1 (case_transform_character Upper false (u "a") 2 (u "banana") _)
            (u "ban") (u "na") 97%N eq_refl eq_refl eq_refl).
  discriminate.
Defined.

Lemma nonpositive_instance_unchanged_witness :
  apply_rules (u "banana") [Replace (u "a") (Nth 0) (u "@")] false =
  Ok (u "banana").
Proof.
  refine (proj1 (nonpositive_instance_unchanged false (u "a") (u "@") Upper 0
                   (u "banana") _)).
  lia.
Defined.

Lemma nth_instance_needs_one_char_witness :
  apply_rules (u "password") [Replace (u "ss") (Nth 1) (u "$")] false =
  Ok (u "password").
Proof.
  refine (proj1 (nth_instance_needs_one_char (u "ss") (u "$") Upper 1
                   (u "password") _)).
  discriminate.
Defined.

Lemma position_raises_iff_witness :
  apply_rules (u "abc") [CaseTransform Lower (Position (-3))] true =
  Raise IndexError /\
  exists s, apply_rules (u "abc") [CaseTransform Lower (Position (-2))] true = Ok s.
Proof.
  split.
  - refine (proj2 (proj1 (position_raises_iff Lower (-3) (u "abc") true)) _).
    simpl; lia.
  - refine (proj2 (position_raises_iff Lower (-2) (u "abc") true) _).
    simpl; lia.
Defined.

Lemma apply_rules_returns_witness :
  exists s,
    apply_rules (u "password")
      [Replace (u "a") (Nth 1) (u "@"); CaseTransform Upper (Position 1)] false =
    Ok s.
Proof.
  refine (apply_rules_returns
            [Replace (u "a") (Nth 1) (u "@"); CaseTransform Upper (Position 1)]
            false _ _ (u "password")).
  - repeat constructor; intros n [= <-]; lia.
  - discriminate.
Defined.

Lemma parse_too_few_tokens_witness :
  parse_single_rule (u "o 1") = Dropped (InvalidFormat (u "o 1")).
Proof.
  refine (proj1 (parse_too_few_tokens (u "o 1")) _).
  simpl; lia.
Defined.

Lemma parse_position_shape_witness :
  parse_single_rule (u "POS x upper") = Dropped (InvalidPosition (u "x")).
Proof.
  exact (proj1 (parse_position_shape (u "POS x upper") (u "POS") (u "x")
                  (u "upper") eq_refl eq_refl) eq_refl).
Defined.

Lemma parse_replace_three_tokens_witness :
  parse_single_rule (u "e ALL 3") = Parsed (Replace (u "e") All (u "3")).
Proof.
  refine (proj1 (parse_replace_three_tokens (u "e ALL 3") (u "e") (u "ALL")
                   (u "3") eq_refl _ eq_refl) eq_refl).
  discriminate.
Defined.

Lemma parsed_rule_tokens_witness :
  Forall (fun w => In w (py_split (u " o  1 0 ")) /\ is_token w = true)
    [u "o"; u "0"].
Proof.
  exact (parsed_rule_tokens (u " o  1 0 ") (Replace (u "o") (Nth 1) (u "0"))
           eq_refl).
Defined.

Lemma split_fragments_any_delimiter_witness :
  trimmed (u "a , b") = true.
Proof.
  refine (proj2 (proj2 (split_fragments_any_delimiter (u " a , b || c") (u ",")))
            (u "a , b") _).
  left; reflexivity.
Defined.

Lemma split_join_fragments_witness :
  split_escaped_delimiters (u "o 1 0 || e all 3") (u "||") =
  [u "o 1 0"; u "e all 3"].
Proof.
  refine (split_join_fragments [u "o 1 0 "; u " e all 3"] _ _).
  - discriminate.
  - repeat constructor; discriminate.
Defined.

Lemma read_rules_rulesets_witness :
  read_rules (Some [u "# rules"; u "o 1 0 || o 1"; u ""; u "x y"]) =
  Rulesets [[Replace (u "o") (Nth 1) (u "0")]]
    [InvalidFormat (u "o 1"); InvalidFormat (u "x y")] /\
  Forall (fun ruleset : list rule => ruleset <> [])
    [[Replace (u "o") (Nth 1) (u "0")]] /\
  (length [[Replace (u "o") (Nth 1) (u "0")]] <=
   length [u "# rules"; u "o 1 0 || o 1"; u ""; u "x y"])%nat.
Proof.
  split; [reflexivity|].
  exact (read_rules_rulesets
           [u "# rules"; u "o 1 0 || o 1"; u ""; u "x y"]
           [[Replace (u "o") (Nth 1) (u "0")]]
           [InvalidFormat (u "o 1"); InvalidFormat (u "x y")]
           eq_refl).
Defined.

Lemma read_rules_skips_line_witness :
  read_rules (Some ([u "o 1 0"] ++ u "  # e all 3 || x" :: [u "pos 1 u"])) =
  read_rules (Some ([u "o 1 0"] ++ [u "pos 1 u"])).
Proof.
  exact (read_rules_skips_line [u "o 1 0"] [u "pos 1 u"] (u "  # e all 3 || x")
           eq_refl).
Defined.

Lemma read_rules_accounts_for_fragments_witness :
  (length (concat [[Replace (u "o") (Nth 1) (u "0")]]) +
   length [InvalidFormat (u "o 1"); InvalidFormat (u "x y")] =
   length [u "o 1 0"; u "o 1"; u "x y"])%nat.
Proof.
  exact (read_rules_accounts_for_fragments
           [u "# rules"; u "o 1 0 || o 1"; u ""; u "x y"]
           [[Replace (u "o") (Nth 1) (u "0")]]
           [InvalidFormat (u "o 1"); InvalidFormat (u "x y")]
           eq_refl).
Defined.

Lemma describe_rule_reads_back_witness :
  exists text,
    describe_rule (Replace (u "o") (Nth (-1)) (u "0")) = Some text /\
    parse_single_rule text = Parsed (Replace (u "o") (Nth (-1)) (u "0")).
Proof.
  refine (describe_rule_reads_back (Replace (u "o") (Nth (-1)) (u "0")) _ _ _).
  - repeat constructor.
  - split; [discriminate | reflexivity].
  - intros n [= <-]; vm_compute; lia.
Defined.

Lemma generate_records_witness :
  generate [[Replace (u "a") All (u "@")]; [CaseTransform Upper (Position 1)]]
    [u "ab"; u ""] false =
  Generated
    [ {| original := u "ab"; transformed := u "@b"; ruleset_index := 1;
         ruleset := u "a all @" |};
      {| original := u ""; transformed := u ""; ruleset_index := 1;
         ruleset := u "a all @" |};
      {| original := u "ab"; transformed := u "Ab"; ruleset_index := 2;
         ruleset := u "pos 1 upper" |};
      {| original := u ""; transformed := u ""; ruleset_index := 2;
         ruleset := u "pos 1 upper" |} ]
    [u "a all @"; u "pos 1 upper"] /\
  (4 = 2 * 2)%nat.
Proof.
  split; [reflexivity|].
  exact (proj1 (generate_records
                  [[Replace (u "a") All (u "@")]; [CaseTransform Upper (Position 1)]]
                  [u "ab"; u ""] false _ _ eq_refl)).
Defined.

Lemma generate_returns_witness :
  exists generated descriptions,
    generate [[Replace (u "a") All (u "@")]] [u "ab"; u "ba"] false =
    Generated generated descriptions.
Proof.
  refine (generate_returns [[Replace (u "a") All (u "@")]] [u "ab"; u "ba"]
            false _ _).
  - intros rules [<- | []]; discriminate.
  - intros rules word [<- | []] [<- | [<- | []]]; eexists; reflexivity.
Defined.

Lemma ruleset_description_reads_back_witness :
  exists description,
    ruleset_description
      [Replace (u "o") (Nth 1) (u "0"); CaseTransform Upper (Position 2)] =
    Some description /\
    read_rules (Some [description]) =
    Rulesets [[Replace (u "o") (Nth 1) (u "0"); CaseTransform Upper (Position 2)]] [].
Proof.
  refine (ruleset_description_reads_back
            [Replace (u "o") (Nth 1) (u "0"); CaseTransform Upper (Position 2)]
            _ _ _).
  - discriminate.
  - repeat (apply Forall_cons || apply Forall_nil);
      unfold line_rule; cbn [rule_tokens plain_rule rule_ordinal];
      repeat split;
      repeat (apply Forall_cons || apply Forall_nil);
      try (split; reflexivity); try discriminate; try reflexivity;
      intros n [= <-]; vm_compute; lia.
  - intros d [= <-]; reflexivity.
Defined.

Lemma interactive_rulesets_as_file_witness :
  interactive_rulesets ([u "o 1 0 || e all 3"; u "bad"] ++ u "Done" :: [u "a 1 b"]) =
  Entered [[Replace (u "o") (Nth 1) (u "0"); Replace (u "e") All (u "3")]]
    [InvalidFormat (u "bad")].
Proof.
  refine (interactive_rulesets_as_file [u "o 1 0 || e all 3"; u "bad"] (u "Done")
            [u "a 1 b"] _ eq_refl).
  repeat constructor; discriminate.
Defined.

Lemma interactive_blank_input_witness :
  interactive_rulesets [u "  "; u "done"] = Entered [] [InvalidFormat []].
Proof.
  refine (interactive_blank_input (u "  ") [u "done"] eq_refl _).
  discriminate.
Defined.
